(** * Notion / Discord / Calendar integration: classifier, segmenter, webhook gate

  A shallow embedding of the two pieces of logic of the repository that
  carry an algorithm:

  - [discord-export-archive.js]: [TAG_RULES], [classifyMessage] and
    [groupIntoConversations];
  - [discord-webhook-handler.js]: [verifyNotionSignature] and the
    [app.post('/notion-webhook')] handler.

  Modelling conventions.

  - A JavaScript string is a [string] of 8-bit code units; the texts that
    are modelled are ASCII texts, and [toLowerCase] maps [A-Z] to [a-z]
    and leaves every other unit alone.
  - A [Date] is the integer number of milliseconds it denotes ([Z]);
    [a - b] on two dates is subtraction of these numbers.
  - A JavaScript [Set] of strings is the list of its elements in insertion
    order ([Set.prototype.add] appends unless the element is present);
    [Array.from] of such a set is that list.
  - Functions that mutate an argument return the argument's final value
    next to their result. *)

From Stdlib Require Import List String Ascii Bool ZArith NArith Lia.
From Stdlib Require Import Sorting.Sorted Sorting.Permutation.
From Stdlib Require DecimalString.
Import ListNotations.

Local Open Scope string_scope.
Local Open Scope list_scope.

Set Implicit Arguments.

(* ------------------------------------------------------------------ *)
(** ** JavaScript strings *)

Module JsString.

(** [String.prototype.toLowerCase], one code unit. *)
Definition lowerChar (c : ascii) : ascii :=
  let n := N_of_ascii c in
  if ((65 <=? n) && (n <=? 90))%N then ascii_of_N (n + 32) else c.

(** [String.prototype.toLowerCase]. *)
Fixpoint toLowerCase (s : string) : string :=
  match s with
  | EmptyString => EmptyString
  | String c s' => String (lowerChar c) (toLowerCase s')
  end.

(** [s.startsWith(k)]. *)
Fixpoint startsWith (s k : string) : bool :=
  match k, s with
  | EmptyString, _ => true
  | String _ _, EmptyString => false
  | String ck k', String cs s' => Ascii.eqb cs ck && startsWith s' k'
  end.

(** [s.includes(k)]: [k] occurs in [s] at some position. *)
Fixpoint includes (s k : string) : bool :=
  startsWith s k ||
  match s with
  | EmptyString => false
  | String _ s' => includes s' k
  end.

(** [s.substring(0, n)]: the first [n] code units of [s], all of [s] when
    it is shorter. *)
Fixpoint substring0 (n : nat) (s : string) : string :=
  match n, s with
  | O, _ => EmptyString
  | S _, EmptyString => EmptyString
  | S n', String c s' => String c (substring0 n' s')
  end.

(** [Array.prototype.some]. *)
Definition some {A : Type} (p : A -> bool) (l : list A) : bool := existsb p l.

End JsString.
Import JsString.

(* ------------------------------------------------------------------ *)
(** ** JavaScript sets of strings, in insertion order *)

Module JsSet.

Definition t := list string.

Definition empty : t := [].

Definition has (s : t) (x : string) : bool := existsb (String.eqb x) s.

(** [Set.prototype.add]: a new element goes last, a present one changes
    nothing. *)
Definition add (s : t) (x : string) : t :=
  if has s x then s else s ++ [x].

(** The set built by adding the elements of [xs] one after the other. *)
Definition of_list (xs : list string) : t := fold_left add xs empty.

End JsSet.

(* ------------------------------------------------------------------ *)
(** ** Completions *)

(** How a call ends: it returns a value or it throws. *)
Inductive completion (A : Type) : Type :=
| Normal (a : A)
| Throw (e : string).
Arguments Normal {A} a.
Arguments Throw {A} e.

Definition bind {A B : Type} (c : completion A) (k : A -> completion B)
  : completion B :=
  match c with
  | Normal a => k a
  | Throw e => Throw e
  end.

(* ------------------------------------------------------------------ *)
(** ** discord-export-archive.js *)

Module ExportArchive.

(** The object [TAG_RULES]. Its keys are not integer-like, so
    [Object.entries] lists them in the order they are written. *)
Definition TAG_RULES : list (string * list string) :=
  [ ("NetSuite/P21", ["netsuite"; "p21"; "erp"; "integration"]);
    ("Business", ["meeting"; "strategy"; "planning"; "budget"]);
    ("Development", ["code"; "github"; "deploy"; "bug"; "feature"]);
    ("Tools", ["notion"; "discord"; "chatgpt"; "claude"; "shareX"]);
    ("Vegas/MGM", ["vegas"; "mgm"; "conference"; "travel"]);
    ("Family", ["family"; "personal"; "vacation"]);
    ("Tech/Hardware", ["server"; "hardware"; "network"; "setup"]) ].

(** The test of the loop of [classifyMessage]:
    [keywords.some(keyword => lowerContent.includes(keyword))]. *)
Definition ruleMatches (lowerContent : string) (keywords : list string) : bool :=
  some (fun keyword => includes lowerContent keyword) keywords.

(** The [for ... of Object.entries(rules)] loop with its early [return],
    followed by [return 'Uncategorized']. *)
Fixpoint firstMatch (rules : list (string * list string)) (lowerContent : string)
  : string :=
  match rules with
  | [] => "Uncategorized"
  | (tag, keywords) :: rest =>
      if ruleMatches lowerContent keywords then tag
      else firstMatch rest lowerContent
  end.

(** [classifyMessage] over an arbitrary rule table. *)
Definition classifyWith (rules : list (string * list string)) (content : string)
  : string :=
  let lowerContent := toLowerCase content in
  firstMatch rules lowerContent.

(** [classifyMessage(content)]. *)
Definition classifyMessage (content : string) : string :=
  classifyWith TAG_RULES content.


(** One message as [exportChannelToMarkdown] builds it; [timestamp] is the
    [Date] [msg.createdAt] in milliseconds. *)
Record Message := {
  id : string;
  author : string;
  authorId : string;
  content : string;
  timestamp : Z;
  attachments : list string;
  tag : string
}.

(** The message object pushed by [exportChannelToMarkdown]: the fields of
    the Discord message and [tag: classifyMessage(msg.content)]. *)
Definition exportedMessage (msgId username userId text : string) (createdAt : Z)
  (urls : list string) : Message :=
  {| id := msgId; author := username; authorId := userId; content := text;
     timestamp := createdAt; attachments := urls;
     tag := classifyMessage text |}.

(** One conversation object. While the loop runs, [participants] and [tags]
    are [Set]s; afterwards they are arrays. *)
Record Conversation := {
  title : string;
  messages : list Message;
  participants : JsSet.t;
  tags : JsSet.t
}.

(** The comparator handed to [sort]: [(a, b) => a.timestamp - b.timestamp]. *)
Definition compareFn (a b : Message) : Z := (timestamp a - timestamp b)%Z.

(** [Array.prototype.sort] is stable: among the orderings of the array that
    the comparator accepts it produces the one that keeps equal elements in
    their original order. Insertion from the right, placing an element
    before the first one that does not compare below it, computes that
    ordering. *)
Fixpoint insertSorted (m : Message) (l : list Message) : list Message :=
  match l with
  | [] => [m]
  | x :: l' =>
      if (compareFn m x <=? 0)%Z then m :: x :: l' else x :: insertSorted m l'
  end.

Fixpoint sort (l : list Message) : list Message :=
  match l with
  | [] => []
  | m :: l' => insertSorted m (sort l')
  end.

(** [30 * 60 * 1000], the gap in milliseconds written in the loop. *)
Definition GAP_MS : Z := (30 * 60 * 1000)%Z.

(** [a[a.length - 1]], [None] for [undefined]. *)
Definition lastOf {A : Type} (a : list A) : option A := last (map Some a) None.

(** The object literal assigned to [currentConv] when a conversation
    starts. *)
Definition newConversation (msg : Message) : Conversation :=
  {| title := (substring0 50 (content msg) ++ "...")%string;
     messages := [];
     participants := JsSet.empty;
     tags := JsSet.empty |}.

(** The three statements that close the loop body, applied to the object
    [currentConv] refers to. *)
Definition addMessage (msg : Message) (conv : Conversation) : Conversation :=
  {| title := title conv;
     messages := messages conv ++ [msg];
     participants := JsSet.add (participants conv) (author msg);
     tags := JsSet.add (tags conv) (tag msg) |}.

(** Mutation of the object that is the last element of an array. *)
Definition updateLast {A : Type} (f : A -> A) (a : list A) : list A :=
  match rev a with
  | [] => []
  | x :: before => rev before ++ [f x]
  end.

Section Segmenter.

(** The gap, in milliseconds, above which a message opens a conversation. *)
Variable gap : Z.

(** [isNewConv]. [currentConv] is [null] before the first message and from
    then on the object pushed last on [conversations]; reading [.timestamp]
    of the last message of a conversation without messages throws. *)
Definition isNewConv (currentConv : option Conversation) (msg : Message)
  : completion bool :=
  match currentConv with
  | None => Normal true
  | Some conv =>
      match lastOf (messages conv) with
      | None => Throw "TypeError"
      | Some prev => Normal (gap <? timestamp msg - timestamp prev)%Z
      end
  end.

(** One iteration of [for (const msg of messages)]. The state is the array
    [conversations]; [currentConv] aliases its last element, so the pushes
    and adds made through [currentConv] are updates of that element. *)
Definition loopBody (conversations : list Conversation) (msg : Message)
  : completion (list Conversation) :=
  bind (isNewConv (lastOf conversations) msg) (fun fresh =>
    let conversations' :=
      if fresh then conversations ++ [newConversation msg] else conversations in
    Normal (updateLast (addMessage msg) conversations')).

(** The whole [for] loop. *)
Fixpoint scan (conversations : list Conversation) (msgs : list Message)
  : completion (list Conversation) :=
  match msgs with
  | [] => Normal conversations
  | msg :: rest => bind (loopBody conversations msg) (fun c => scan c rest)
  end.

(** The closing [forEach]: both sets become arrays. *)
Definition setsToArrays (conv : Conversation) : Conversation :=
  {| title := title conv;
     messages := messages conv;
     participants := participants conv;
     tags := tags conv |}.

(** The body of [groupIntoConversations] for a given gap. The first
    component is the caller's array after the call: [messages.sort] sorts it
    in place. The second is what the call returns or throws. *)
Definition groupWith (msgs : list Message)
  : list Message * completion (list Conversation) :=
  let sorted := sort msgs in
  (sorted, bind (scan [] sorted) (fun convs => Normal (map setsToArrays convs))).

End Segmenter.

(** [groupIntoConversations(messages)]. *)
Definition groupIntoConversations (msgs : list Message)
  : list Message * completion (list Conversation) :=
  groupWith GAP_MS msgs.

End ExportArchive.

(* ------------------------------------------------------------------ *)
(** ** discord-webhook-handler.js *)

Module WebhookHandler.

(** The request body as [formatDiscordMessage] reads it: the properties
    [page], [user], [type] and [changes]. The body is parsed JSON, so each
    of them may be missing and may hold any JSON value.

    [page] and [user] are [None] when they are missing or null, where
    reading a property of them throws. Otherwise they are given by what the
    code takes from them. Where the code turns a value into a text, inside
    a template literal or as a property key, the value is [Some] of the
    text that the conversion gives ([undefined] gives ["undefined"]) and
    [None] when the conversion throws, as it does on an object, or an array
    holding one, whose [toString] and [valueOf] are not functions. *)
Record NotionPage := { title : option string; url : option string }.

Record NotionUser := { id : option string; name : string }.

(** The property [changes], when the body has one: an array that [join]
    renders, with its entries as rendered; a string; or any other value
    (null, a boolean, a number, an object, an array with an entry that
    [join] throws on), of which [joinThrows] says whether the statement
    that adds the field Changes throws on it: it does when the value
    passes the guard [changes && changes.length > 0], as an object with a
    positive [length] does, since such a value has no [join] that
    returns. *)
Inductive ChangesValue : Type :=
| ChangesArray (entries : list string)
| ChangesString (text : string)
| ChangesOther (joinThrows : bool).

Record NotionData := {
  page : option NotionPage;
  user : option NotionUser;
  type : string;
  changes : option ChangesValue
}.

(** Whether [changes] gets past the statement that adds the field Changes:
    the guard [changes && changes.length > 0] fails, or [changes] is an
    array that [join] renders. A non-empty string passes the guard and has
    no [join] to call. *)
Definition joinable (changes : option ChangesValue) : bool :=
  match changes with
  | Some (ChangesString (String _ _)) => false
  | Some (ChangesOther true) => false
  | _ => true
  end.

(** Whether a value that is turned into a text has one. *)
Definition renders (v : option string) : bool :=
  match v with
  | Some _ => true
  | None => false
  end.

(** Whether no step of [formatDiscordMessage] throws on a body: [user] and
    [page] are there, [user.id], [page.title] and [page.url] can be turned
    into texts, and [changes] is joinable. *)
Definition formattable (d : NotionData) : bool :=
  match user d, page d with
  | Some u, Some p =>
      renders (id u) && renders (title p) && renders (url p) &&
      joinable (changes d)
  | _, _ => false
  end.

(** One entry of [fields] of the embed. *)
Record EmbedField := {
  fieldName : string;
  fieldValue : string;
  inline : option bool
}.

(** The object [formatDiscordMessage] returns: its one embed, and [content]
    when the user is mapped. *)
Record DiscordMessage := {
  embedTitle : string;
  color : Z;
  fields : list EmbedField;
  embedTimestamp : string;
  content : option string
}.

(** The request: the [x-notion-signature] header ([None] when the request
    carries none) and the parsed body. *)
Record Request := {
  xNotionSignature : option string;
  body : NotionData
}.

(** What [res.status(..).json(..)] sends. *)
Inductive ResponseJson : Type :=
| ErrorJson (error : string)
| SuccessJson (success : bool).

Record Response := { status : nat; json : ResponseJson }.

(** What one request does: the bodies handed to [axios.post], in order, and
    the response. *)
Record Outcome := {
  posted : list DiscordMessage;
  response : Response
}.

(** A string as a condition: the empty string is falsy, [undefined] too. *)
Definition truthy (v : option string) : bool :=
  match v with
  | Some (String _ _) => true
  | _ => false
  end.

Section Handler.

(** [crypto.createHmac('sha256', key).update(data).digest('hex')]. *)
Variable hmacSha256Hex : string -> string -> string.

(** [JSON.stringify] on a parsed body. *)
Variable JSON_stringify : NotionData -> string.

(** [config.NOTION_SECRET]: [process.env.NOTION_SECRET], [None] when unset. *)
Variable NOTION_SECRET : option string.

(** The object [userMapping], as the list of its entries. *)
Variable userMapping : list (string * string).

(** [new Date().toISOString()] at the time of the request. *)
Variable now : string.

(** Whether the promise of [axios.post] to the Discord webhook resolves. *)
Variable discordAccepts : DiscordMessage -> bool.

(** [userMapping[key]]. *)
Fixpoint lookup (m : list (string * string)) (key : string) : option string :=
  match m with
  | [] => None
  | (k, v) :: rest => if String.eqb k key then Some v else lookup rest key
  end.

(** [verifyNotionSignature(payload, signature)]; [createHmac] throws on a
    key that is [undefined]. *)
Definition verifyNotionSignature (payload : NotionData) (signature : string)
  : completion bool :=
  match NOTION_SECRET with
  | None => Throw "TypeError"
  | Some secret =>
      let hash := hmacSha256Hex secret (JSON_stringify payload) in
      Normal (String.eqb hash signature)
  end.

(** [formatDiscordMessage(notionData)]. Reading [user.id] or [page.title]
    of a missing [user] or [page] throws; so does turning [user.id] into a
    property key, or [page.title] or [page.url] into a text, when the value
    has none; and so does the statement that adds the field Changes on a
    [changes] that is not joinable. The embed's title is written without
    its leading pictograph. *)
Definition formatDiscordMessage (notionData : NotionData)
  : completion DiscordMessage :=
  match user notionData with
  | None => Throw "TypeError"
  | Some u =>
      match id u with
      | None => Throw "TypeError"
      | Some key =>
          let mapped := lookup userMapping key in
          let discordUser := if truthy mapped then mapped else Some (name u) in
          match page notionData with
          | None => Throw "TypeError"
          | Some p =>
              match title p, url p with
              | Some pageTitle, Some pageUrl =>
                  let fields0 :=
                    [ {| fieldName := "Page";
                         fieldValue := "[" ++ pageTitle ++ "](" ++ pageUrl ++ ")";
                         inline := Some true |};
                      {| fieldName := "Updated By"; fieldValue := name u;
                         inline := Some true |};
                      {| fieldName := "Type"; fieldValue := type notionData;
                         inline := Some true |} ] in
                  let content0 :=
                    if truthy mapped
                    then option_map (fun d => d ++ " - New Notion update!")
                                    discordUser
                    else None in
                  let fields1 :=
                    match changes notionData with
                    | Some (ChangesArray (c :: cs)) =>
                        Normal
                          (fields0 ++
                           [ {| fieldName := "Changes";
                                fieldValue :=
                                  substring0 1024 (String.concat "\n" (c :: cs));
                                inline := None |} ])%list
                    | Some (ChangesString (String _ _)) => Throw "TypeError"
                    | Some (ChangesOther true) => Throw "TypeError"
                    | _ => Normal fields0
                    end in
                  bind fields1 (fun fields2 =>
                    Normal {| embedTitle := "Notion Update";
                              color := 0x0077FF;
                              fields := fields2;
                              embedTimestamp := now;
                              content := content0 |})
              | _, _ => Throw "TypeError"
              end
          end
      end
  end%string.

(** The [try] block of the handler: the posts made and how the block ends. *)
Definition tryBlock (req : Request) : list DiscordMessage * completion Response :=
  let signature := xNotionSignature req in
  let rejected :=
    match signature with
    | Some (String c s) =>
        bind (verifyNotionSignature (body req) (String c s))
             (fun valid => Normal (negb valid))
    | _ => Normal false
    end in
  match rejected with
  | Throw e => ([], Throw e)
  | Normal true =>
      ([], Normal {| status := 401; json := ErrorJson "Invalid signature" |})
  | Normal false =>
      match formatDiscordMessage (body req) with
      | Throw e => ([], Throw e)
      | Normal discordMessage =>
          if discordAccepts discordMessage
          then ([discordMessage],
                Normal {| status := 200; json := SuccessJson true |})
          else ([discordMessage], Throw "AxiosError")
      end
  end.

(** [app.post('/notion-webhook', ...)]: the [try] block, and the [catch]
    that answers 500. *)
Definition notionWebhook (req : Request) : Outcome :=
  let (sent, done) := tryBlock req in
  match done with
  | Normal res => {| posted := sent; response := res |}
  | Throw _ =>
      {| posted := sent;
         response := {| status := 500;
                        json := ErrorJson "Failed to process webhook" |} |}
  end.

(** The statements of the [try] block that follow the signature check,
    under the same [catch]: what the handler does once the check is passed
    or skipped. *)
Definition forwarded (req : Request) : Outcome :=
  match formatDiscordMessage (body req) with
  | Throw _ =>
      {| posted := [];
         response := {| status := 500;
                        json := ErrorJson "Failed to process webhook" |} |}
  | Normal discordMessage =>
      {| posted := [discordMessage];
         response :=
           if discordAccepts discordMessage
           then {| status := 200; json := SuccessJson true |}
           else {| status := 500; json := ErrorJson "Failed to process webhook" |} |}
  end.

End Handler.

End WebhookHandler.

(* ------------------------------------------------------------------ *)
(** ** The keyword comparison the rule table is documented with *)

Module CaseInsensitive.

Import ExportArchive.

(** A keyword occurs in a text, letter case disregarded on both sides. *)
Definition occursIn (text keyword : string) : bool :=
  includes (toLowerCase text) (toLowerCase keyword).

(** A rule whose keywords are compared without regard to case. *)
Definition ruleMatches (text : string) (keywords : list string) : bool :=
  some (occursIn text) keywords.

End CaseInsensitive.

(* ------------------------------------------------------------------ *)
(** ** Vocabulary for the segmenter's properties *)

Module Segments.

Import ExportArchive.

(** Ascending by timestamp: each message is no later than the next. *)
Definition byTimestamp (a b : Message) : Prop := (timestamp a <= timestamp b)%Z.

Definition sortedByTimestamp (msgs : list Message) : Prop :=
  Sorted byTimestamp msgs.

(** [a] is immediately followed by [b] in [l]. *)
Definition adjacent {A : Type} (a b : A) (l : list A) : Prop :=
  exists l1 l2, l = l1 ++ a :: b :: l2.

(** The messages of the conversations, one conversation after the other. *)
Definition flatten (convs : list Conversation) : list Message :=
  List.concat (map messages convs).

(** The messages of an array that carry a given timestamp, in array order. *)
Definition stampedAt (t : Z) (msgs : list Message) : list Message :=
  filter (fun m => (timestamp m =? t)%Z) msgs.

(** A conversation right after the iteration that started it. *)
Definition opened (msg : Message) : Conversation :=
  addMessage msg (newConversation msg).

(** One iteration of the loop as a relation on the array [conversations]:
    the message opens a conversation, when there is none or the gap to the
    last message is exceeded, or it joins the last one. *)
Inductive Step (gap : Z) : list Conversation -> Message -> list Conversation -> Prop :=
| Step_open convs msg :
    (forall conv prev, lastOf convs = Some conv ->
                       lastOf (messages conv) = Some prev ->
                       (gap < timestamp msg - timestamp prev)%Z) ->
    Step gap convs msg (convs ++ [opened msg])
| Step_extend front conv prev msg :
    lastOf (messages conv) = Some prev ->
    (timestamp msg - timestamp prev <= gap)%Z ->
    Step gap (front ++ [conv]) msg (front ++ [addMessage msg conv]).

(** The loop over a list of messages. *)
Inductive Steps (gap : Z) : list Conversation -> list Message -> list Conversation -> Prop :=
| Steps_done convs : Steps gap convs [] convs
| Steps_next convs msg convs' rest convs'' :
    Step gap convs msg convs' ->
    Steps gap convs' rest convs'' ->
    Steps gap convs (msg :: rest) convs''.

(** Every conversation on the array has a message. *)
Definition populated (convs : list Conversation) : Prop :=
  Forall (fun conv => messages conv <> []) convs.

(** The title is cut from the text of the conversation's first message. *)
Definition titled (conv : Conversation) : Prop :=
  exists first rest,
    messages conv = first :: rest /\
    title conv = (substring0 50 (content first) ++ "...")%string.

(** Both sets are the sets of the authors and of the tags of the messages,
    in order of first appearance. *)
Definition aggregated (conv : Conversation) : Prop :=
  participants conv = JsSet.of_list (map author (messages conv)) /\
  tags conv = JsSet.of_list (map tag (messages conv)).

(** Inside a conversation no message is more than the gap after the one
    before it. *)
Definition withinGap (gap : Z) (conv : Conversation) : Prop :=
  forall a b, adjacent a b (messages conv) ->
              (timestamp b - timestamp a <= gap)%Z.

(** A conversation starts more than the gap after the one before it ends. *)
Definition apart (gap : Z) (convs : list Conversation) : Prop :=
  forall c1 c2 a b,
    adjacent c1 c2 convs ->
    lastOf (messages c1) = Some a -> hd_error (messages c2) = Some b ->
    (gap < timestamp b - timestamp a)%Z.

(** Some conversation holds [a] immediately followed by [b]. *)
Definition together (a b : Message) (convs : list Conversation) : Prop :=
  exists conv, In conv convs /\ adjacent a b (messages conv).

End Segments.

(* ------------------------------------------------------------------ *)
(** ** Sample inputs *)

Module Samples.

Import ExportArchive.

(** Four messages at [t0], [t0 + 5 min], [t0 + 40 min] and [t0 + 41 min]. *)
Definition first : Message :=
  exportedMessage "1001" "ana" "u1" "Deploy the build tonight" 0 [].

Definition second : Message :=
  exportedMessage "1002" "ben" "u2" "budget meeting moved" 300000 [].

Definition third : Message :=
  exportedMessage "1003" "ana" "u1" "" 2400000 [].

Definition fourth : Message :=
  exportedMessage "1004" "ana" "u1" "packing for vegas" 2460000
                  ["https://cdn.example/a.png"].

Definition scenario : list Message := [first; second; third; fourth].

(** Two messages handed over latest first. *)
Definition swapped : list Message := [second; first].

End Samples.

Module WebhookSamples.

Import WebhookHandler.

Definition pageUpdate : NotionData :=
  {| page := Some {| title := Some "Roadmap";
                     url := Some "https://notion.example/roadmap" |};
     user := Some {| id := Some "u-17"; name := "Ana" |};
     type := "page.updated";
     changes := Some (ChangesArray ["status: done"]) |}.

(** The formatted message for [pageUpdate] when no user is mapped. *)
Definition pageUpdateMessage (now : string) : DiscordMessage :=
  {| embedTitle := "Notion Update";
     color := 30719;
     fields :=
       [ {| fieldName := "Page";
            fieldValue := "[Roadmap](https://notion.example/roadmap)";
            inline := Some true |};
         {| fieldName := "Updated By"; fieldValue := "Ana"; inline := Some true |};
         {| fieldName := "Type"; fieldValue := "page.updated"; inline := Some true |};
         {| fieldName := "Changes"; fieldValue := "status: done"; inline := None |} ];
     embedTimestamp := now;
     content := None |}.

(** A request without the header, one whose header is present with an
    empty value, and one with a made-up signature. *)
Definition unsigned : Request :=
  {| xNotionSignature := None; body := pageUpdate |}.

Definition emptySignature : Request :=
  {| xNotionSignature := Some ""; body := pageUpdate |}.

Definition forged : Request :=
  {| xNotionSignature := Some "deadbeef"; body := pageUpdate |}.

(** Stand-ins used to run the handler: a digest function that answers 64
    hexadecimal digits, and a serialiser. *)
Definition zeroDigest (key data : string) : string :=
  "0000000000000000000000000000000000000000000000000000000000000000".

Definition render (d : NotionData) : string := type d.

End WebhookSamples.

(* ------------------------------------------------------------------ *)
(** ** discord-export-archive.js: [uploadToNotion] *)

Module NotionUpload.

Import ExportArchive.

(** The object [properties] of [uploadToNotion], one field per Notion
    property: the text content, the select name, the multi-select names,
    the number, and the two ends of the date. *)
Record Properties := {
  Title : string;
  Channel : string;
  Tags : list string;
  Participants : string;
  MessageCount : nat;
  DateRangeStart : string;
  DateRangeEnd : string
}.

(** One block of [children], with its text content. *)
Inductive Block : Type :=
| Heading2 (text : string)
| Paragraph (text : string).

(** The argument of [notion.pages.create], without the parent. *)
Record PageRequest := {
  properties : Properties;
  children : list Block
}.

Section Upload.

(** [Date.prototype.toISOString]. *)
Variable toISOString : Z -> string.

(** [notion.pages.create]: the created page's id, or a rejection. *)
Variable createPage : PageRequest -> completion string.

(** The paragraph text of one message:
    [`[${msg.author}] ${msg.timestamp.toISOString()}: ${msg.content}`]. *)
Definition paragraphText (msg : Message) : string :=
  ("[" ++ author msg ++ "] " ++ toISOString (timestamp msg) ++ ": " ++ content msg)%string.

(** The request [uploadToNotion] builds. Reading [.timestamp] of
    [conversation.messages[0]] throws when there is no message. *)
Definition pageRequest (conversation : Conversation) (channelName : string)
  : completion PageRequest :=
  match messages conversation with
  | [] => Throw "TypeError"
  | firstMsg :: _ =>
      match lastOf (messages conversation) with
      | None => Throw "TypeError"
      | Some lastMsg =>
          Normal
            {| properties :=
                 {| Title := title conversation;
                    Channel := channelName;
                    Tags := map (fun tag => tag) (tags conversation);
                    Participants := String.concat ", " (participants conversation);
                    MessageCount := List.length (messages conversation);
                    DateRangeStart := toISOString (timestamp firstMsg);
                    DateRangeEnd := toISOString (timestamp lastMsg) |};
               children :=
                 Heading2 "Conversation Export" ::
                 map (fun msg => Paragraph (paragraphText msg))
                     (messages conversation) |}
      end
  end.

(** [uploadToNotion(conversation, channelName)]: the id of the page. *)
Definition uploadToNotion (conversation : Conversation) (channelName : string)
  : completion string :=
  bind (pageRequest conversation channelName) createPage.

End Upload.

End NotionUpload.

(* ------------------------------------------------------------------ *)
(** ** Counting the places where a conversation starts *)

Module Breaks.

Import ExportArchive.

(** The number of messages of a list that come more than [gap] after the
    message just before them. *)
Fixpoint gapsExceeded (gap : Z) (msgs : list Message) : nat :=
  match msgs with
  | [] => 0
  | a :: rest =>
      match rest with
      | [] => 0
      | b :: _ =>
          (if (gap <? timestamp b - timestamp a)%Z then 1 else 0) +
          gapsExceeded gap rest
      end
  end.

End Breaks.

(* ------------------------------------------------------------------ *)
(** ** discord-export-archive.js: [exportChannelToMarkdown] and
       [clearOldMessages] *)

Module ExportPipeline.

Import ExportArchive.

(** What the two functions read of a Discord message: [msg.id],
    [msg.author.username], [msg.author.id], [msg.content], [msg.createdAt]
    in milliseconds, the urls of [msg.attachments], and [msg.pinned]. *)
Record ChannelMessage := {
  messageId : string;
  authorUsername : string;
  authorUserId : string;
  messageContent : string;
  createdAt : Z;
  attachmentUrls : list string;
  pinned : bool
}.

(** The object pushed on [messages] for one Discord message. *)
Definition toMessage (msg : ChannelMessage) : Message :=
  exportedMessage (messageId msg) (authorUsername msg) (authorUserId msg)
                  (messageContent msg) (createdAt msg) (attachmentUrls msg).

(** The line feed written [\n] in the source. *)
Definition nl : string := String (ascii_of_nat 10) EmptyString.

(** A non-negative number inside a template literal. *)
Definition showNat (n : nat) : string :=
  DecimalString.NilZero.string_of_uint (Nat.to_uint n).

Section Channel.

(** [channel.messages.fetch({ limit: 100, before })]: what the [n]-th call
    of a run answers for the cursor it is given, a page in the order of its
    [values()], or a rejection. *)
Variable fetch : nat -> option string -> completion (list ChannelMessage).

(** [dateLimit], in milliseconds. *)
Variable dateLimit : Z.

(** [Date.prototype.toISOString]. *)
Variable toISOString : Z -> string.

(** [new Date().toISOString()] when the markdown is started. *)
Variable exportDate : string.

(** [channel.name]. *)
Variable channelName : string.

(** The [for] loop over one fetched page: messages are pushed until the
    first one older than the limit, where the loop breaks. *)
Fixpoint pushRecent (fetched : list ChannelMessage) (messages : list Message)
  : list Message :=
  match fetched with
  | [] => messages
  | msg :: rest =>
      if (createdAt msg <? dateLimit)%Z then messages
      else pushRecent rest (messages ++ [toMessage msg])
  end.

(** The [while (true)] loop of [exportChannelToMarkdown], run for at most
    [fuel] fetches starting with call number [call]; [None] when it has not
    ended by then. *)
Fixpoint fetchLoop (fuel call : nat) (lastId : option string)
  (messages : list Message) : option (completion (list Message)) :=
  match fuel with
  | O => None
  | S fuel' =>
      match fetch call lastId with
      | Throw e => Some (Throw e)
      | Normal fetchedMessages =>
          match lastOf fetchedMessages with
          | None => Some (Normal messages)
          | Some lastFetched =>
              let messages' := pushRecent fetchedMessages messages in
              if (createdAt lastFetched <? dateLimit)%Z
              then Some (Normal messages')
              else fetchLoop fuel' (S call) (Some (messageId lastFetched)) messages'
          end
      end
  end.

(** The attachments of one message, when it has any. *)
Definition renderAttachments (markdown : string) (msg : Message) : string :=
  match attachments msg with
  | [] => markdown
  | _ :: _ =>
      (fold_left (fun md url => md ++ "- " ++ url ++ nl) (attachments msg)
                 (markdown ++ "**Attachments:**" ++ nl) ++ nl)%string
  end.

(** The body of [for (const msg of conv.messages)]. *)
Definition renderMessage (markdown : string) (msg : Message) : string :=
  let markdown :=
    (markdown ++ "### [" ++ author msg ++ "] " ++ toISOString (timestamp msg) ++ nl)%string in
  let markdown := (markdown ++ content msg ++ nl ++ nl)%string in
  renderAttachments markdown msg.

(** The body of [for (const conv of conversations)]. *)
Definition renderConversation (markdown : string) (conv : Conversation) : string :=
  let markdown := (markdown ++ "## Conversation: " ++ title conv ++ nl)%string in
  let markdown :=
    (markdown ++ "**Tags:** " ++ String.concat ", " (tags conv) ++ nl)%string in
  let markdown :=
    (markdown ++ "**Participants:** " ++ String.concat ", " (participants conv)
              ++ nl ++ nl)%string in
  let markdown := fold_left renderMessage (messages conv) markdown in
  (markdown ++ "---" ++ nl ++ nl)%string.

(** The markdown before the conversations. *)
Definition markdownHeader (messageCount : nat) : string :=
  ("# Discord Export: " ++ channelName ++ nl ++ nl ++
   "**Export Date:** " ++ exportDate ++ nl ++
   "**Channel:** " ++ channelName ++ nl ++
   "**Message Count:** " ++ showNat messageCount ++ nl ++ nl ++
   "---" ++ nl ++ nl)%string.

(** [exportChannelToMarkdown(channel)], with at most [fuel] fetches: the
    markdown and the conversations. *)
Definition exportChannelToMarkdown (fuel : nat)
  : option (completion (string * list Conversation)) :=
  match fetchLoop fuel 0 None [] with
  | None => None
  | Some fetched =>
      Some (bind fetched (fun messages =>
        let markdown := markdownHeader (List.length messages) in
        bind (snd (groupIntoConversations messages)) (fun conversations =>
          Normal (fold_left renderConversation conversations markdown,
                  conversations))))
  end.

(** A message built from a message of some fetched page that is not older
    than the limit. *)
Definition collected (m : Message) : Prop :=
  exists call cursor page msg,
    fetch call cursor = Normal page /\ In msg page /\
    (dateLimit <= createdAt msg)%Z /\ m = toMessage msg.

(** [msg.delete()]: whether the promise resolves. *)
Variable deleteResolves : ChannelMessage -> bool.

(** The [for] loop of [clearOldMessages] over one page. The state is the
    list of the messages deleted so far and the counter [deleted]. *)
Fixpoint clearPage (fetched : list ChannelMessage)
  (state : list ChannelMessage * nat) : list ChannelMessage * nat :=
  match fetched with
  | [] => state
  | msg :: rest =>
      clearPage rest
        (if (createdAt msg <? dateLimit)%Z && negb (pinned msg)
         then if deleteResolves msg
              then (fst state ++ [msg], S (snd state))
              else state
         else state)
  end.

(** The [while (true)] loop of [clearOldMessages], run for at most [fuel]
    fetches: the messages deleted, and the returned count when the loop has
    ended. *)
Fixpoint clearLoop (fuel call : nat) (lastId : option string)
  (state : list ChannelMessage * nat)
  : list ChannelMessage * option (completion nat) :=
  match fuel with
  | O => (fst state, None)
  | S fuel' =>
      match fetch call lastId with
      | Throw e => (fst state, Some (Throw e))
      | Normal messages =>
          match lastOf messages with
          | None => (fst state, Some (Normal (snd state)))
          | Some lastFetched =>
              clearLoop fuel' (S call) (Some (messageId lastFetched))
                        (clearPage messages state)
          end
      end
  end.

(** [clearOldMessages(channel)], with at most [fuel] fetches. *)
Definition clearOldMessages (fuel : nat)
  : list ChannelMessage * option (completion nat) :=
  clearLoop fuel 0 None ([], 0).

End Channel.

End ExportPipeline.

Module PipelineSamples.

Import ExportArchive ExportPipeline.

Definition newest : ChannelMessage :=
  {| messageId := "903"; authorUsername := "ben"; authorUserId := "u2";
     messageContent := "server setup done"; createdAt := 9000000;
     attachmentUrls := ["https://cdn.example/rack.png"]; pinned := false |}.

Definition middle : ChannelMessage :=
  {| messageId := "902"; authorUsername := "ana"; authorUserId := "u1";
     messageContent := "Planning the budget"; createdAt := 5000000;
     attachmentUrls := []; pinned := true |}.

Definition oldest : ChannelMessage :=
  {| messageId := "901"; authorUsername := "ana"; authorUserId := "u1";
     messageContent := "old news"; createdAt := 1000; attachmentUrls := [];
     pinned := false |}.

(** A channel of three messages, served newest first in pages of two. *)
Definition pages (call : nat) (before : option string)
  : completion (list ChannelMessage) :=
  match before with
  | None => Normal [newest; middle]
  | Some cursor =>
      if String.eqb cursor "902" then Normal [oldest] else Normal []
  end.

(** A stand-in for [toISOString]: the milliseconds in decimal. *)
Definition stamp (t : Z) : string :=
  DecimalString.NilZero.string_of_int (Z.to_int t).

(** Every deletion succeeds. *)
Definition deletable (msg : ChannelMessage) : bool := true.

End PipelineSamples.

(* ------------------------------------------------------------------ *)
(** ** The calendar sync ([calculateDuration], [notifyDiscord],
       [syncCalendar])

    A valid date is a whole number of milliseconds, at most 8.64e15 from
    the epoch in either direction, and is a double. The source subtracts
    dates in double precision: the difference of two valid dates is below
    2^54 in magnitude and is rounded to the nearest double, which
    [toDouble] computes. The quotients of [calculateDuration] and of
    [Math.round] are taken in [Z]; they are what [Math.floor] and
    [Math.round] give on the double quotient for differences below 2^52
    milliseconds (some 142 000 years), the range the theorems about them
    are stated for. One reading of the clock stands for the readings
    [new Date()] takes within one call. *)

Module CalendarSync.

(** [event.start] and [event.end]: a date-time for a timed event, a date
    for an all-day one. *)
Record EventTime := {
  dateTime : option string;
  date : option string
}.

(** What the sync reads of a calendar event. *)
Record CalendarEvent := {
  id : string;
  summary : option string;
  start : EventTime;
  end_ : EventTime;
  description : option string;
  location : option string
}.

(** One entry of [fields] of an embed. *)
Record Field := {
  name : string;
  value : string;
  inline : option bool
}.

(** The body [notifyDiscord] posts: its one embed, and [content] for an
    urgent event. The pictographs of the title and of the content are left
    out. *)
Record Notification := {
  title : string;
  embedDescription : option string;
  color : Z;
  fields : list Field;
  timestamp : string;
  content : option string
}.

(** The double nearest to an integer below 2^54 in magnitude, halves to
    the even significand. Below 2^53 every integer is a double; from there
    on the doubles are the even integers, an odd integer lies midway
    between two of them, and the one with the even significand is the
    multiple of 4. *)
Definition toDouble (z : Z) : Z :=
  if (Z.abs z <? 9007199254740992)%Z then z
  else if Z.even z then z
  else if (Z.rem (z + 1) 4 =? 0)%Z then (z + 1)%Z else (z - 1)%Z.

(** [a || b] on values that are strings or [undefined]. *)
Definition orElse (a b : option string) : option string :=
  match a with
  | Some (String _ _) => a
  | _ => b
  end.

(** A number inside a template literal; [None] is [NaN]. *)
Definition showNumber (n : option Z) : string :=
  match n with
  | None => "NaN"
  | Some z => DecimalString.NilZero.string_of_int (Z.to_int z)
  end.

Section Sync.

(** [new Date(text)] in milliseconds, [None] for an invalid date. *)
Variable parseDate : string -> option Z.

(** [Date.prototype.toLocaleString], also of an invalid date. *)
Variable toLocaleString : option Z -> string.

(** [Date.prototype.toISOString]. *)
Variable toISOString : Z -> string.

(** [new Date(start.dateTime || start.date)]; [new Date(undefined)] is an
    invalid date. *)
Definition dateOf (t : EventTime) : option Z :=
  match orElse (dateTime t) (date t) with
  | Some text => parseDate text
  | None => None
  end.

(** [endDate - startDate]: [NaN] when either date is invalid. *)
Definition durationMs (startTime endTime : EventTime) : option Z :=
  match dateOf endTime, dateOf startTime with
  | Some e, Some s => Some (toDouble (e - s))
  | _, _ => None
  end.

(** [Math.floor(durationMs / (1000 * 60 * 60))]. *)
Definition hoursOf (duration : Z) : Z := (duration / (1000 * 60 * 60))%Z.

(** [Math.floor((durationMs % (1000 * 60 * 60)) / (1000 * 60))]; [%] takes
    the sign of the dividend. *)
Definition minutesOf (duration : Z) : Z :=
  (Z.rem duration (1000 * 60 * 60) / (1000 * 60))%Z.

(** [calculateDuration(start, end)]. *)
Definition calculateDuration (startTime endTime : EventTime) : string :=
  match durationMs startTime endTime with
  | None => (showNumber None ++ "m")%string
  | Some duration =>
      let hours := hoursOf duration in
      let minutes := minutesOf duration in
      if (0 <? hours)%Z
      then (showNumber (Some hours) ++ "h " ++ showNumber (Some minutes) ++ "m")%string
      else (showNumber (Some minutes) ++ "m")%string
  end.

(** [Math.round(hoursUntilEvent)] for the milliseconds until the event:
    the nearest whole number of hours, halves upwards. *)
Definition roundedHours (untilMs : Z) : Z :=
  ((untilMs + 1800000) / 3600000)%Z.

(** [hoursUntilEvent > 0 && hoursUntilEvent < 24]; false for [NaN]. *)
Definition urgent (until : option Z) : bool :=
  match until with
  | Some ms => (0 <? ms)%Z && (ms <? 24 * (1000 * 60 * 60))%Z
  | None => false
  end.


(** The body [notifyDiscord(event, action)] posts when the clock reads
    [now]. *)
Definition notifyDiscord (now : Z) (event : CalendarEvent) (action : string)
  : Notification :=
  let eventDate := dateOf (start event) in
  let fields0 :=
    [ {| name := "When"; value := toLocaleString eventDate;
         inline := Some true |};
      {| name := "Duration";
         value := calculateDuration (start event) (end_ event);
         inline := Some true |} ] in
  let fields1 :=
    match location event with
    | Some (String c s) =>
        fields0 ++ [ {| name := "Location"; value := String c s;
                        inline := Some true |} ]
    | _ => fields0
    end in
  let fields2 :=
    match description event with
    | Some (String c s) =>
        fields1 ++ [ {| name := "Description";
                        value := substring0 1024 (String c s);
                        inline := None |} ]
    | _ => fields1
    end in
  let until := option_map (fun t => toDouble (t - now)) eventDate in
  {| title :=
       ("Calendar Event " ++
        (if String.eqb action "created" then "Added" else "Updated"))%string;
     embedDescription := summary event;
     color :=
       if urgent until then 0xFF0000
       else if String.eqb action "created" then 0x00FF00 else 0x0077FF;
     fields := fields2;
     timestamp := toISOString now;
     content :=
       if urgent until
       then Some ("@here Reminder: Event starting in " ++
                  showNumber (option_map roundedHours until) ++ " hours!")%string
       else None |}.

(** The filter of [syncCalendar]: the event starts within the next hour. *)
Definition upcoming (now : Z) (event : CalendarEvent) : bool :=
  match dateOf (start event) with
  | Some t =>
      (0 <? toDouble (t - now))%Z && (toDouble (t - now) <=? 1000 * 60 * 60)%Z
  | None => false
  end.

(** The state a run of [syncCalendar] works on: the set [syncedEvents], and
    the calls of [notifyDiscord] that were delivered, oldest first. *)
Record SyncState := {
  syncedEvents : JsSet.t;
  delivered : list (CalendarEvent * string)
}.

(** [calendar.events.list(...)]: [response.data.items], or a rejection. *)
Variable listEvents : completion (list CalendarEvent).

(** [syncEventToNotion(event)]: [result.action], or a rejection. *)
Variable syncEventToNotion : CalendarEvent -> completion string.

(** Whether the post of [notifyDiscord(event, action)] resolves. *)
Variable notifyResolves : CalendarEvent -> string -> bool.

(** The body of the first loop, with its [try] and [catch]. *)
Definition syncOne (state : SyncState) (event : CalendarEvent) : SyncState :=
  match syncEventToNotion event with
  | Throw _ => state
  | Normal action =>
      if String.eqb action "created" && negb (JsSet.has (syncedEvents state) (id event))
      then
        if notifyResolves event "created"
        then {| syncedEvents := JsSet.add (syncedEvents state) (id event);
                delivered := delivered state ++ [(event, "created"%string)] |}
        else state
      else state
  end.

(** [`reminder-${event.id}`]. *)
Definition reminderKey (event : CalendarEvent) : string :=
  ("reminder-" ++ id event)%string.

(** The second loop: a rejected post ends it with a throw. *)
Fixpoint remindAll (state : SyncState) (events : list CalendarEvent)
  : SyncState * completion unit :=
  match events with
  | [] => (state, Normal tt)
  | event :: rest =>
      if JsSet.has (syncedEvents state) (reminderKey event)
      then remindAll state rest
      else
        if notifyResolves event "reminder"
        then remindAll
               {| syncedEvents := JsSet.add (syncedEvents state) (reminderKey event);
                  delivered := delivered state ++ [(event, "reminder"%string)] |}
               rest
        else (state, Throw "AxiosError")
  end.

(** [syncCalendar()] when the clock reads [now]: the state afterwards, and
    whether the [catch] was entered, where the error notice is posted. *)
Definition syncCalendar (now : Z) (state : SyncState) : SyncState * bool :=
  match listEvents with
  | Throw _ => (state, true)
  | Normal events =>
      let state1 := fold_left syncOne events state in
      let upcomingEvents := filter (upcoming now) events in
      match remindAll state1 upcomingEvents with
      | (state2, Normal _) => (state2, false)
      | (state2, Throw _) => (state2, true)
      end
  end.

End Sync.

(** The entry of [syncedEvents] that stands for a delivered call. *)
Definition keyOf (call : CalendarEvent * string) : string :=
  if String.eqb (snd call) "created" then id (fst call) else reminderKey (fst call).

(** [later] continues [earlier]: no entry of [syncedEvents] is gone, and the
    calls delivered since then have pairwise different entries, none of
    which was in the set at [earlier] and all of which are in it at
    [later]. *)
Definition continues (earlier later : SyncState) : Prop :=
  (forall key, In key (syncedEvents earlier) -> In key (syncedEvents later)) /\
  exists new,
    delivered later = delivered earlier ++ new /\
    NoDup (map keyOf new) /\
    forall call, In call new ->
      ~ In (keyOf call) (syncedEvents earlier) /\
      In (keyOf call) (syncedEvents later).

End CalendarSync.

Module CalendarSamples.

Import CalendarSync.

(** A stand-in for [new Date(text)]: the text is the milliseconds in
    decimal. *)
Definition parseMillis (text : string) : option Z :=
  option_map Z.of_int (DecimalString.NilZero.int_of_string text).

Definition showDate (t : option Z) : string := showNumber t.

Definition showInstant (t : Z) : string := showNumber (Some t).

(** A meeting of an hour and a half that starts forty minutes after the
    clock reads 1000000. *)
Definition standup : CalendarEvent :=
  {| id := "ev1"; summary := Some "Standup";
     start := {| dateTime := Some "3400000"; date := None |};
     end_ := {| dateTime := Some "8800000"; date := None |};
     description := Some "Daily sync"; location := None |}.

(** An event entered with its end before its start. *)
Definition backwards : CalendarEvent :=
  {| id := "ev2"; summary := None;
     start := {| dateTime := Some "9000000"; date := None |};
     end_ := {| dateTime := Some "3600000"; date := None |};
     description := None; location := None |}.

End CalendarSamples.

(* ------------------------------------------------------------------ *)
(** ** scripts/Export-ChatGPT.ps1: [Get-ConversationTag] and the file name *)

Module ChatGptExport.

(** The hashtable [$TagRules], entry by entry as written. The order in
    which [$TagRules.Keys] enumerates it is not this order. *)
Definition TagRules : list (string * list string) :=
  [ ("NetSuite/P21", ["netsuite"; "p21"; "erp"; "integration"]);
    ("Business", ["meeting"; "strategy"; "planning"; "budget"; "revenue"]);
    ("Development", ["code"; "github"; "deploy"; "bug"; "feature"; "script"]);
    ("Tools", ["notion"; "discord"; "chatgpt"; "claude"; "shareX"]);
    ("Vegas/MGM", ["vegas"; "mgm"; "conference"; "travel"; "hotel"]);
    ("Cooking", ["recipe"; "cook"; "food"; "meal"; "dinner"]);
    ("Family", ["family"; "personal"; "vacation"; "home"]);
    ("Tech/Hardware", ["server"; "hardware"; "network"; "setup"; "computer"]) ].

(** [$TagRules[$Tag]]: the keywords of a key, nothing for a key that is
    absent. *)
Fixpoint keywordsOf (rules : list (string * list string)) (tag : string)
  : list string :=
  match rules with
  | [] => []
  | (key, keywords) :: rest =>
      if String.eqb key tag then keywords else keywordsOf rest tag
  end.

(** [$Combined -like "*$Keyword*"] for a keyword without wildcard
    characters: the keyword occurs in the text, letter case disregarded. *)
Definition like (combined keyword : string) : bool :=
  includes (toLowerCase combined) (toLowerCase keyword).

(** The two nested [foreach] loops with their [return], followed by
    [return "Uncategorized"], for the keys in the order they are
    enumerated. *)
Fixpoint tagLoop (keys : list string) (combined : string) : string :=
  match keys with
  | [] => "Uncategorized"
  | tag :: rest =>
      if existsb (like combined) (keywordsOf TagRules tag) then tag
      else tagLoop rest combined
  end.

(** [Get-ConversationTag -Title $Title -Content $Content], given the order
    in which the keys are enumerated. *)
Definition getConversationTag (keys : list string) (title content : string)
  : string :=
  let combined := toLowerCase (title ++ " " ++ content) in
  tagLoop keys combined.

(** The characters of the class the script replaces: less-than,
    greater-than, colon, double quote, slash, backslash, bar, question mark
    and star. *)
Definition forbidden (c : ascii) : bool :=
  existsb (Ascii.eqb c)
          ["<"; ">"; ":"; "034"; "/"; "\"; "|"; "?"; "*"]%char.

(** The [-replace] of the script: each character of the class becomes an
    underscore. *)
Fixpoint safeTitle (title : string) : string :=
  match title with
  | EmptyString => EmptyString
  | String c rest =>
      String (if forbidden c then "_"%char else c) (safeTitle rest)
  end.

(** [$SafeTitle.Substring(0, [Math]::Min($SafeTitle.Length, 50))]. *)
Definition titlePart (title : string) : string :=
  substring0 (Nat.min (String.length (safeTitle title)) 50) (safeTitle title).

(** [$FileName]. *)
Definition fileName (convId title : string) : string :=
  (convId ++ "_" ++ titlePart title ++ ".md")%string.

End ChatGptExport.

(* ================================================================== *)
(** * Facts *)

(* ------------------------------------------------------------------ *)
(** ** Strings and sets *)

Module StringFacts.

Lemma lowerChar_not_upper c :
  let n := N_of_ascii (lowerChar c) in ((65 <=? n) && (n <=? 90))%N = false.
Proof.
  destruct c as [[] [] [] [] [] [] [] []]; vm_compute; reflexivity.
Qed.

(** No unit of a lower-cased text is an upper-case letter. *)
Lemma toLowerCase_units s c :
  In c (list_ascii_of_string (toLowerCase s)) ->
  ((65 <=? N_of_ascii c) && (N_of_ascii c <=? 90))%N = false.
Proof.
  induction s as [|d s IH]; simpl; [tauto|].
  intros [<- | H]; [apply lowerChar_not_upper | auto].
Qed.

Lemma startsWith_units s k :
  startsWith s k = true ->
  forall c, In c (list_ascii_of_string k) -> In c (list_ascii_of_string s).
Proof.
  revert s; induction k as [|ck k IH]; intros s H c Hc; simpl in *; [tauto|].
  destruct s as [|cs s]; [discriminate|].
  apply andb_true_iff in H as [Hh Ht].
  apply Ascii.eqb_eq in Hh; subst cs.
  destruct Hc as [-> | Hc]; simpl; [now left | right; eauto].
Qed.

(** Every unit of a keyword that occurs in a text is a unit of the text. *)
Lemma includes_units s k :
  includes s k = true ->
  forall c, In c (list_ascii_of_string k) -> In c (list_ascii_of_string s).
Proof.
  induction s as [|cs s IH]; simpl; intros H c Hc.
  - rewrite orb_false_r in H. destruct k; [simpl in Hc; tauto | discriminate].
  - apply orb_true_iff in H as [H | H].
    + exact (startsWith_units (String cs s) k H c Hc).
    + right; auto.
Qed.

Lemma startsWith_app s k :
  startsWith s k = true <-> exists rest, s = (k ++ rest)%string.
Proof.
  revert s; induction k as [|ck k IH]; intros s; simpl.
  - split; [exists s; reflexivity | destruct s; reflexivity].
  - destruct s as [|cs s]; simpl.
    + split; [discriminate | intros [r Hr]; discriminate].
    + rewrite andb_true_iff, Ascii.eqb_eq, IH. split.
      * intros [-> [r ->]]. now exists r.
      * intros [r Hr]. injection Hr as -> ->. split; [reflexivity | now exists r].
Qed.

(** [includes] is the substring test. *)
Lemma includes_app s k :
  includes s k = true <-> exists before rest, s = (before ++ k ++ rest)%string.
Proof.
  induction s as [|cs s IH]; simpl.
  - rewrite orb_false_r. split.
    + destruct k; [exists "", ""; reflexivity | discriminate].
    + intros (b & r & H). destruct b; [|discriminate].
      destruct k; [reflexivity | discriminate].
  - rewrite orb_true_iff, IH. split.
    + intros [H | (b & r & ->)].
      * apply (startsWith_app (String cs s) k) in H as [r Hr].
        exists "", r. exact Hr.
      * exists (String cs b), r. reflexivity.
    + intros (b & r & H). destruct b as [|cb b]; simpl in H.
      * left. apply (startsWith_app (String cs s) k). now exists r.
      * right. injection H as _ ->. now exists b, r.
Qed.

Lemma substring0_prefix n s :
  exists rest, s = (substring0 n s ++ rest)%string.
Proof.
  revert s; induction n as [|n IH]; intros s; simpl.
  - now exists s.
  - destruct s as [|c s]; [now exists "" |].
    destruct (IH s) as [r Hr]. exists r. simpl. now rewrite <- Hr.
Qed.

Lemma substring0_length n s :
  String.length (substring0 n s) = Nat.min n (String.length s).
Proof.
  revert s; induction n as [|n IH]; intros s; simpl; [reflexivity|].
  destruct s as [|c s]; simpl; [reflexivity | now rewrite IH].
Qed.

End StringFacts.

Module SetFacts.

Import JsSet.

Lemma has_In s x : has s x = true <-> In x s.
Proof.
  unfold has. rewrite existsb_exists. split.
  - intros (y & Hy & E). apply String.eqb_eq in E. now subst.
  - intros H. exists x. split; [exact H | apply String.eqb_refl].
Qed.

Lemma add_In s x y : In y (add s x) <-> In y s \/ y = x.
Proof.
  unfold add. destruct (has s x) eqn:E.
  - apply has_In in E. split; [tauto | intros [H | ->]; assumption].
  - rewrite in_app_iff. simpl. intuition congruence.
Qed.

Lemma add_NoDup s x : NoDup s -> NoDup (add s x).
Proof.
  intros H. unfold add. destruct (has s x) eqn:E; [exact H|].
  assert (~ In x s) as Hx by (rewrite <- has_In, E; discriminate).
  clear E. induction H as [|y s Hy Hs IH]; simpl.
  - constructor; [tauto | constructor].
  - constructor.
    + rewrite in_app_iff. simpl in *. intuition congruence.
    + apply IH. simpl in Hx. tauto.
Qed.

Lemma fold_add_In xs s y :
  In y (fold_left add xs s) <-> In y s \/ In y xs.
Proof.
  revert s; induction xs as [|x xs IH]; intros s; simpl; [tauto|].
  rewrite IH, add_In. intuition congruence.
Qed.

Lemma fold_add_NoDup xs s : NoDup s -> NoDup (fold_left add xs s).
Proof.
  revert s; induction xs as [|x xs IH]; intros s H; simpl; [exact H|].
  apply IH, add_NoDup, H.
Qed.

Lemma of_list_In xs y : In y (of_list xs) <-> In y xs.
Proof. unfold of_list. rewrite fold_add_In. simpl. tauto. Qed.

Lemma of_list_NoDup xs : NoDup (of_list xs).
Proof. apply fold_add_NoDup. constructor. Qed.

Lemma of_list_snoc xs x : of_list (xs ++ [x]) = add (of_list xs) x.
Proof. unfold of_list. now rewrite fold_left_app. Qed.

End SetFacts.

(* ------------------------------------------------------------------ *)
(** ** The classifier *)

Module ClassifierFacts.

Import ExportArchive StringFacts.

Lemma ruleMatches_exists lowerContent keywords :
  ruleMatches lowerContent keywords = true <->
  exists keyword, In keyword keywords /\ includes lowerContent keyword = true.
Proof. unfold ruleMatches, some. apply existsb_exists. Qed.

Lemma firstMatch_skip before rest lowerContent :
  (forall tag keywords, In (tag, keywords) before ->
                        ruleMatches lowerContent keywords = false) ->
  firstMatch (before ++ rest) lowerContent = firstMatch rest lowerContent.
Proof.
  induction before as [|[t ks] before IH]; intros H; simpl; [reflexivity|].
  rewrite (H t ks) by now left.
  apply IH. intros tag keywords Hin. apply (H tag keywords). now right.
Qed.

(** The sentinel comes out of a table that does not use it as a label only
    when the whole table was walked without a match. *)
Lemma firstMatch_sentinel rules lowerContent :
  (forall tag keywords, In (tag, keywords) rules -> tag <> "Uncategorized") ->
  firstMatch rules lowerContent = "Uncategorized" <->
  (forall tag keywords, In (tag, keywords) rules ->
                        ruleMatches lowerContent keywords = false).
Proof.
  induction rules as [|[t ks] rules IH]; intros Hlab; simpl.
  - split; [intros _ ? ? [] | reflexivity].
  - destruct (ruleMatches lowerContent ks) eqn:E.
    + split.
      * intros ->. exfalso. apply (Hlab "Uncategorized" ks); [now left | reflexivity].
      * intros H. rewrite (H t ks) in E by now left. discriminate.
    + rewrite IH by (intros tag keywords Hin; apply (Hlab tag keywords); now right).
      split.
      * intros H tag keywords [Heq | Hin]; [congruence | eauto].
      * intros H tag keywords Hin. apply (H tag keywords). now right.
Qed.

Lemma TAG_RULES_labels tag keywords :
  In (tag, keywords) TAG_RULES -> tag <> "Uncategorized".
Proof.
  unfold TAG_RULES. simpl.
  intros H; repeat (destruct H as [H | H]; [inversion H; discriminate|]).
  destruct H.
Qed.

(** No lower-cased text contains the keyword written [shareX]. *)
Lemma shareX_never_included content :
  includes (toLowerCase content) "shareX" = false.
Proof.
  destruct (includes (toLowerCase content) "shareX") eqn:E; [|reflexivity].
  pose proof (includes_units _ _ E "X"%char) as H.
  assert (In "X"%char (list_ascii_of_string "shareX")) as HX by (simpl; tauto).
  apply H, toLowerCase_units in HX. vm_compute in HX. discriminate.
Qed.

(** C3. The rule table is walked in order and the first rule with a
    matching keyword decides: when no rule before [(tag, keywords)] matches
    the lower-cased text and that rule does, the classifier returns [tag],
    whatever the rules after it are and whether or not they match. *)
Theorem classify_first_match_wins :
  forall (before after : list (string * list string)) (tag : string)
         (keywords : list string) (content : string),
    (forall t ks, In (t, ks) before ->
                  ruleMatches (toLowerCase content) ks = false) ->
    ruleMatches (toLowerCase content) keywords = true ->
    classifyWith (before ++ (tag, keywords) :: after) content = tag.
Proof.
  intros before after tag keywords content Hbefore Hmatch.
  unfold classifyWith. rewrite firstMatch_skip by exact Hbefore.
  simpl. now rewrite Hmatch.
Qed.

(** The example of the specification: with the table [("A", ["x"])],
    [("B", ["x", "y"])] the text ["x y"], which both rules match, is
    labelled ["A"]. *)
Lemma classify_first_match_wins_witness :
  ruleMatches (toLowerCase "x y") ["x"; "y"] = true /\
  classifyWith ([] ++ ("A", ["x"]) :: [("B", ["x"; "y"])]) "x y" = "A".
Proof.
  split; [reflexivity|].
  apply (classify_first_match_wins [] [("B", ["x"; "y"])] "A" ["x"] "x y").
  - intros t ks [].
  - reflexivity.
Defined.

(** C4, at the input where the code departs from it. The text ["shareX"]
    contains the keyword [shareX] of the rule ["Tools"], so the rule matches
    when keywords are compared without regard to case; the code compares the
    lower-cased text with the keyword as written, finds no rule and answers
    ["Uncategorized"]. The keyword matches no text at all. *)
Theorem classify_shareX_uncategorized :
  CaseInsensitive.ruleMatches "shareX"
    ["notion"; "discord"; "chatgpt"; "claude"; "shareX"] = true /\
  ruleMatches (toLowerCase "shareX")
    ["notion"; "discord"; "chatgpt"; "claude"; "shareX"] = false /\
  classifyMessage "shareX" = "Uncategorized" /\
  (forall content, includes (toLowerCase content) "shareX" = false).
Proof.
  repeat split; try reflexivity. exact shareX_never_included.
Qed.

(** C9. The classifier is a total function, and over the configured table it
    answers ["Uncategorized"] exactly when no rule matches the lower-cased
    text; the empty text matches no rule and is labelled ["Uncategorized"]. *)
Theorem classify_uncategorized_iff_no_match :
  forall content : string,
    (classifyMessage content = "Uncategorized" <->
     (forall tag keywords, In (tag, keywords) TAG_RULES ->
                           ruleMatches (toLowerCase content) keywords = false)) /\
    (forall tag keywords, In (tag, keywords) TAG_RULES ->
                          ruleMatches (toLowerCase "") keywords = false) /\
    classifyMessage "" = "Uncategorized".
Proof.
  intros content. split; [|split].
  - unfold classifyMessage, classifyWith.
    apply firstMatch_sentinel. exact TAG_RULES_labels.
  - apply (firstMatch_sentinel TAG_RULES (toLowerCase "") TAG_RULES_labels).
    reflexivity.
  - reflexivity.
Qed.

End ClassifierFacts.

(* ------------------------------------------------------------------ *)
(** ** Arrays read and updated at their end *)

Module ArrayFacts.

Import ExportArchive Segments.

Lemma snoc_case {A : Type} (l : list A) :
  l = [] \/ exists front x, l = front ++ [x].
Proof.
  induction l as [|x front _] using rev_ind; [now left | right; eauto].
Qed.

Lemma lastOf_nil {A : Type} : lastOf (@nil A) = None.
Proof. reflexivity. Qed.

Lemma lastOf_snoc {A : Type} (l : list A) x : lastOf (l ++ [x]) = Some x.
Proof. unfold lastOf. rewrite map_app. simpl. apply last_last. Qed.

Lemma lastOf_Some {A : Type} (l : list A) x :
  lastOf l = Some x <-> exists front, l = front ++ [x].
Proof.
  split.
  - destruct (snoc_case l) as [-> | (front & y & ->)]; [discriminate|].
    rewrite lastOf_snoc. intros [= ->]. now exists front.
  - intros [front ->]. apply lastOf_snoc.
Qed.

Lemma updateLast_snoc {A : Type} (f : A -> A) l x :
  updateLast f (l ++ [x]) = l ++ [f x].
Proof. unfold updateLast. now rewrite rev_unit, rev_involutive. Qed.

Lemma adjacent_snoc {A : Type} (a b x : A) l :
  adjacent a b (l ++ [x]) <-> adjacent a b l \/ (lastOf l = Some a /\ b = x).
Proof.
  split.
  - intros (l1 & l2 & H).
    destruct (snoc_case l2) as [-> | (l2' & y & ->)].
    + right. change (l1 ++ [a; b]) with (l1 ++ [a] ++ [b]) in H.
      rewrite app_assoc in H. apply app_inj_tail in H as [-> ->].
      split; [apply lastOf_snoc | reflexivity].
    + left. change (l1 ++ a :: b :: l2' ++ [y])
        with (l1 ++ (a :: b :: l2') ++ [y]) in H.
      rewrite app_assoc in H. apply app_inj_tail in H as [-> _].
      now exists l1, l2'.
  - intros [(l1 & l2 & ->) | [H ->]].
    + exists l1, (l2 ++ [x]). now rewrite <- app_assoc.
    + apply lastOf_Some in H as [front ->].
      exists front, []. now rewrite <- app_assoc.
Qed.

Lemma adjacent_single {A : Type} (a b x : A) : ~ adjacent a b [x].
Proof.
  intros (l1 & l2 & H). destruct l1 as [|? [|? ?]]; discriminate.
Qed.

Lemma flatten_snoc convs conv :
  flatten (convs ++ [conv]) = flatten convs ++ messages conv.
Proof.
  unfold flatten. rewrite map_app, concat_app. simpl. now rewrite app_nil_r.
Qed.

Lemma setsToArrays_id conv : setsToArrays conv = conv.
Proof. now destruct conv. Qed.

Lemma map_setsToArrays convs : map setsToArrays convs = convs.
Proof.
  induction convs as [|c convs IH]; simpl; [reflexivity|].
  now rewrite setsToArrays_id, IH.
Qed.

End ArrayFacts.

(* ------------------------------------------------------------------ *)
(** ** The sort *)

Module SortFacts.

Import ExportArchive Segments.

Lemma insertSorted_perm m l : Permutation (m :: l) (insertSorted m l).
Proof.
  induction l as [|x l IH]; simpl; [apply Permutation_refl|].
  destruct (compareFn m x <=? 0)%Z; [apply Permutation_refl|].
  eapply perm_trans; [apply perm_swap | apply perm_skip, IH].
Qed.

Lemma sort_perm l : Permutation l (sort l).
Proof.
  induction l as [|m l IH]; simpl; [constructor|].
  eapply perm_trans; [apply perm_skip, IH | apply insertSorted_perm].
Qed.

Lemma insertSorted_HdRel a m l :
  byTimestamp a m -> HdRel byTimestamp a l ->
  HdRel byTimestamp a (insertSorted m l).
Proof.
  intros Ham H. destruct H as [|x l Hax]; simpl; [now constructor|].
  destruct (compareFn m x <=? 0)%Z; now constructor.
Qed.

Lemma insertSorted_sorted m l :
  sortedByTimestamp l -> sortedByTimestamp (insertSorted m l).
Proof.
  unfold sortedByTimestamp.
  induction 1 as [|x l Hl IH Hx]; simpl; [repeat constructor|].
  destruct (compareFn m x <=? 0)%Z eqn:E.
  - constructor; [now constructor|].
    constructor. unfold byTimestamp, compareFn in *. lia.
  - constructor; [exact IH|].
    apply insertSorted_HdRel; [|exact Hx].
    unfold byTimestamp, compareFn in *. lia.
Qed.

Lemma sort_sorted l : sortedByTimestamp (sort l).
Proof.
  induction l as [|m l IH]; simpl; [constructor | now apply insertSorted_sorted].
Qed.

(** An array that is in order already is left as it is. *)
Lemma sort_of_sorted l : sortedByTimestamp l -> sort l = l.
Proof.
  unfold sortedByTimestamp.
  induction 1 as [|x l Hl IH Hx]; simpl; [reflexivity|].
  rewrite IH. destruct Hx as [|y l Hxy]; simpl; [reflexivity|].
  unfold byTimestamp in Hxy. unfold compareFn.
  destruct (timestamp x - timestamp y <=? 0)%Z eqn:E; [reflexivity | lia].
Qed.

Lemma insertSorted_stampedAt t m l :
  stampedAt t (insertSorted m l) = stampedAt t (m :: l).
Proof.
  unfold stampedAt.
  induction l as [|x l IH]; simpl; [reflexivity|].
  destruct (compareFn m x <=? 0)%Z eqn:E; simpl; [reflexivity|].
  rewrite IH. simpl. unfold compareFn in E.
  destruct (timestamp m =? t)%Z eqn:Em; [|reflexivity].
  destruct (timestamp x =? t)%Z eqn:Ex; [lia | reflexivity].
Qed.

(** Stability: messages with one timestamp keep their order. *)
Lemma sort_stampedAt t l : stampedAt t (sort l) = stampedAt t l.
Proof.
  induction l as [|m l IH]; simpl; [reflexivity|].
  rewrite insertSorted_stampedAt. unfold stampedAt in *. simpl. now rewrite IH.
Qed.

End SortFacts.

(* ------------------------------------------------------------------ *)
(** ** The loop of [groupIntoConversations] *)

Module LoopFacts.

Import ExportArchive Segments ArrayFacts.

Section Loop.

Variable gap : Z.

Lemma loopBody_Step convs msg :
  populated convs ->
  exists convs', loopBody gap convs msg = Normal convs' /\ Step gap convs msg convs'.
Proof.
  intros Hpop. unfold loopBody.
  destruct (snoc_case convs) as [-> | (front & conv & ->)].
  - exists [opened msg]. split; [reflexivity|].
    apply (Step_open (gap := gap) [] msg). intros conv prev H. discriminate.
  - rewrite lastOf_snoc. simpl.
    assert (messages conv <> []) as Hne.
    { apply Forall_app in Hpop as [_ H]. now inversion H. }
    destruct (snoc_case (messages conv)) as [E | (ms & prev & E)]; [contradiction|].
    rewrite E, lastOf_snoc. simpl.
    destruct (gap <? timestamp msg - timestamp prev)%Z eqn:G.
    + exists ((front ++ [conv]) ++ [opened msg]). split.
      * now rewrite updateLast_snoc.
      * apply Step_open. intros c p Hc Hp.
        rewrite lastOf_snoc in Hc. injection Hc as <-.
        rewrite E, lastOf_snoc in Hp. injection Hp as <-. lia.
    + exists (front ++ [addMessage msg conv]). split.
      * now rewrite updateLast_snoc.
      * apply Step_extend with (prev := prev); [rewrite E; apply lastOf_snoc | lia].
Qed.

(** What one iteration keeps true of every conversation: a property that
    holds of a conversation just opened and survives a message that joins
    within the gap. *)
Lemma Step_Forall (P : Conversation -> Prop) convs msg convs' :
  (forall m, P (opened m)) ->
  (forall conv prev m,
      P conv -> lastOf (messages conv) = Some prev ->
      (timestamp m - timestamp prev <= gap)%Z -> P (addMessage m conv)) ->
  Step gap convs msg convs' -> Forall P convs -> Forall P convs'.
Proof.
  intros Hopen Hext Hstep H. destruct Hstep as [convs msg _ | front conv prev msg Hl Hg].
  - apply Forall_app. split; [exact H | repeat constructor; apply Hopen].
  - apply Forall_app in H as [Hf Hc]. inversion Hc; subst.
    apply Forall_app. split; [exact Hf | repeat constructor; eauto].
Qed.

Lemma Steps_Forall (P : Conversation -> Prop) convs msgs convs' :
  (forall m, P (opened m)) ->
  (forall conv prev m,
      P conv -> lastOf (messages conv) = Some prev ->
      (timestamp m - timestamp prev <= gap)%Z -> P (addMessage m conv)) ->
  Steps gap convs msgs convs' -> Forall P convs -> Forall P convs'.
Proof.
  intros Hopen Hext. induction 1 as [|convs msg convs' rest convs'' Hs _ IH]; [auto|].
  intros H. apply IH. eapply Step_Forall; eauto.
Qed.

Lemma Step_populated convs msg convs' :
  Step gap convs msg convs' -> populated convs -> populated convs'.
Proof.
  apply Step_Forall.
  - intros m. discriminate.
  - intros conv prev m _ _ _. simpl. now destruct (messages conv).
Qed.

(** The loop ends normally, and its iterations are the steps above. *)
Lemma scan_Steps msgs : forall convs,
  populated convs ->
  exists convs', scan gap convs msgs = Normal convs' /\ Steps gap convs msgs convs'.
Proof.
  induction msgs as [|msg rest IH]; intros convs Hpop; simpl.
  - exists convs. split; [reflexivity | constructor].
  - destruct (loopBody_Step msg Hpop) as (convs1 & -> & Hstep). simpl.
    destruct (IH convs1 (Step_populated Hstep Hpop)) as (convs2 & -> & Hsteps).
    exists convs2. split; [reflexivity | econstructor; eauto].
Qed.

(** The call returns, with the array sorted and the conversations the loop
    built over the sorted array. *)
Lemma groupWith_Steps msgs :
  exists convs,
    groupWith gap msgs = (sort msgs, Normal convs) /\
    Steps gap [] (sort msgs) convs.
Proof.
  destruct (scan_Steps (sort msgs) (convs := [])) as (convs & E & H).
  - constructor.
  - exists convs. unfold groupWith. rewrite E. simpl.
    now rewrite map_setsToArrays.
Qed.

Lemma Steps_app convs l1 l2 convs'' :
  Steps gap convs (l1 ++ l2) convs'' <->
  exists convs', Steps gap convs l1 convs' /\ Steps gap convs' l2 convs''.
Proof.
  revert convs. induction l1 as [|m l1 IH]; intros convs; simpl.
  - split.
    + intros H. exists convs. split; [constructor | exact H].
    + intros (convs' & H1 & H2). now inversion H1; subst.
  - split.
    + intros H. inversion H as [|? ? c1 ? ? Hs Hr]; subst.
      apply IH in Hr as (convs' & H1 & H2).
      exists convs'. split; [econstructor; eauto | exact H2].
    + intros (convs' & H1 & H2). inversion H1 as [|? ? c1 ? ? Hs Hr]; subst.
      econstructor; [exact Hs | apply IH; eauto].
Qed.

(** *** The messages are kept, in order *)

Lemma Step_flatten convs msg convs' :
  Step gap convs msg convs' -> flatten convs' = flatten convs ++ [msg].
Proof.
  intros [c m _ | front conv prev m _ _]; rewrite !flatten_snoc; simpl.
  - reflexivity.
  - now rewrite <- !app_assoc.
Qed.

Lemma Steps_flatten convs msgs convs' :
  Steps gap convs msgs convs' -> flatten convs' = flatten convs ++ msgs.
Proof.
  induction 1 as [|convs msg convs' rest convs'' Hs _ IH].
  - now rewrite app_nil_r.
  - rewrite IH, (Step_flatten Hs), <- app_assoc. reflexivity.
Qed.

(** *** Titles *)

Lemma Steps_titled convs msgs convs' :
  Steps gap convs msgs convs' -> Forall titled convs -> Forall titled convs'.
Proof.
  apply Steps_Forall.
  - intros m. exists m, []. split; reflexivity.
  - intros conv prev m (first & rest & Hm & Ht) _ _.
    exists first, (rest ++ [m]). simpl. rewrite Hm. split; [reflexivity | exact Ht].
Qed.

(** *** Participants and tags *)

Lemma Steps_aggregated convs msgs convs' :
  Steps gap convs msgs convs' -> Forall aggregated convs -> Forall aggregated convs'.
Proof.
  apply Steps_Forall.
  - intros m. split; reflexivity.
  - intros conv prev m [Hp Ht] _ _. unfold aggregated. simpl.
    rewrite !map_app. simpl. rewrite !SetFacts.of_list_snoc, Hp, Ht. tauto.
Qed.

(** *** Gaps inside a conversation *)

Lemma Steps_withinGap convs msgs convs' :
  Steps gap convs msgs convs' -> Forall (withinGap gap) convs -> Forall (withinGap gap) convs'.
Proof.
  apply Steps_Forall.
  - intros m a b H. now apply adjacent_single in H.
  - intros conv prev m Hc Hl Hg a b H. simpl in H.
    apply adjacent_snoc in H as [H | [H ->]]; [now apply Hc|].
    rewrite Hl in H. injection H as ->. exact Hg.
Qed.

(** *** Gaps between conversations *)

Lemma Step_apart convs msg convs' :
  Step gap convs msg convs' -> apart gap convs -> apart gap convs'.
Proof.
  intros [c m Hopen | front conv prev m Hl Hg] Hap c1 c2 a b Hadj Ha Hb.
  - apply adjacent_snoc in Hadj as [Hadj | [Hc1 ->]]; [eauto|].
    simpl in Hb. injection Hb as <-. eauto.
  - apply adjacent_snoc in Hadj as [Hadj | [Hc1 ->]].
    + apply (Hap c1 c2 a b); [|assumption..].
      apply adjacent_snoc. now left.
    + apply (Hap c1 conv a b); [apply adjacent_snoc; now right | assumption |].
      simpl in Hb. apply lastOf_Some in Hl as [ms Hms]. rewrite Hms in *.
      destruct ms; exact Hb.
Qed.

Lemma Steps_apart convs msgs convs' :
  Steps gap convs msgs convs' -> apart gap convs -> apart gap convs'.
Proof.
  induction 1 as [|convs msg convs' rest convs'' Hs _ IH]; [auto|].
  intros H. apply IH. eapply Step_apart; eauto.
Qed.

(** *** Messages that stay together *)

Lemma Step_together a b convs msg convs' :
  Step gap convs msg convs' -> together a b convs -> together a b convs'.
Proof.
  intros [c m _ | front conv prev m _ _] (c0 & Hin & Hadj).
  - exists c0. split; [apply in_or_app; now left | exact Hadj].
  - apply in_app_or in Hin as [Hin | [<- | []]].
    + exists c0. split; [apply in_or_app; now left | exact Hadj].
    + exists (addMessage m conv). split; [apply in_or_app; right; now left|].
      simpl. apply adjacent_snoc. now left.
Qed.

Lemma Steps_together a b convs msgs convs' :
  Steps gap convs msgs convs' -> together a b convs -> together a b convs'.
Proof.
  induction 1 as [|convs msg convs' rest convs'' Hs _ IH]; [auto|].
  intros H. apply IH. eapply Step_together; eauto.
Qed.

(** After an iteration the message it handled is the last message of the
    last conversation. *)
Lemma Step_last convs msg convs' :
  Step gap convs msg convs' ->
  exists conv, lastOf convs' = Some conv /\ lastOf (messages conv) = Some msg.
Proof.
  intros [c m _ | front conv prev m _ _]; eexists;
    (split; [apply lastOf_snoc | simpl; first [reflexivity | apply lastOf_snoc]]).
Qed.

(** A message within the gap of the one handled just before joins it. *)
Lemma Step_joins a b convs conv convs' :
  lastOf convs = Some conv -> lastOf (messages conv) = Some a ->
  (timestamp b - timestamp a <= gap)%Z ->
  Step gap convs b convs' -> together a b convs'.
Proof.
  intros Hc Ha Hg Hstep.
  inversion Hstep as [c m Hopen | front conv0 prev m Hl _]; subst.
  - specialize (Hopen conv a Hc Ha). lia.
  - rewrite lastOf_snoc in Hc. injection Hc as ->.
    exists (addMessage b conv). split; [apply in_or_app; right; now left|].
    simpl. apply adjacent_snoc. right. split; [exact Ha | reflexivity].
Qed.

Lemma Steps_joins a b l1 l2 convs :
  (timestamp b - timestamp a <= gap)%Z ->
  Steps gap [] (l1 ++ a :: b :: l2) convs -> together a b convs.
Proof.
  intros Hg H.
  apply Steps_app in H as (c1 & _ & H).
  inversion H as [|? ? c2 ? ? Ha Hr]; subst.
  inversion Hr as [|? ? c3 ? ? Hb Hr']; subst.
  destruct (Step_last Ha) as (conv & Hc & Hl).
  eapply Steps_together; [exact Hr'|].
  eapply Step_joins; eauto.
Qed.

End Loop.

End LoopFacts.

(* ------------------------------------------------------------------ *)
(** ** The segmenter *)

Module SegmenterFacts.

Import ExportArchive Segments ArrayFacts SortFacts LoopFacts.

Lemma In_flatten m conv convs :
  In conv convs -> In m (messages conv) -> In m (flatten convs).
Proof.
  intros Hc Hm. unfold flatten. apply in_concat.
  exists (messages conv). split; [now apply in_map | exact Hm].
Qed.

(** C1. For every sequence of messages sorted ascending by timestamp (the
    empty one included), the call returns conversations whose message lists,
    put one after the other in conversation order, are exactly the sequence
    passed in: nothing lost, nothing repeated, order unchanged. *)
Theorem group_keeps_messages :
  forall msgs : list Message,
    sortedByTimestamp msgs ->
    exists convs,
      snd (groupIntoConversations msgs) = Normal convs /\
      flatten convs = msgs.
Proof.
  intros msgs Hsorted.
  destruct (groupWith_Steps GAP_MS msgs) as (convs & E & Hsteps).
  exists convs. unfold groupIntoConversations. rewrite E. split; [reflexivity|].
  rewrite (Steps_flatten Hsteps). simpl. now apply sort_of_sorted.
Qed.

Lemma group_keeps_messages_witness :
  sortedByTimestamp Samples.scenario /\
  exists convs,
    snd (groupIntoConversations Samples.scenario) = Normal convs /\
    flatten convs = Samples.scenario.
Proof.
  assert (sortedByTimestamp Samples.scenario) as H.
  { repeat constructor; unfold byTimestamp; simpl; lia. }
  split; [exact H | exact (group_keeps_messages H)].
Defined.

(** C2. For every positive gap and every sequence sorted ascending by
    timestamp, the call returns conversations in which (1) every
    conversation has a message and each message but the first comes at most
    the gap after the one before it, (2) the first message of a conversation
    comes more than the gap after the last message of the conversation
    before it, and (3) two neighbouring input messages with the same
    timestamp are neighbours in one conversation.
    [groupIntoConversations] is [groupWith GAP_MS]. *)
Theorem group_gap_invariant :
  forall (gap : Z) (msgs : list Message),
    (0 < gap)%Z ->
    sortedByTimestamp msgs ->
    exists convs,
      groupWith gap msgs = (msgs, Normal convs) /\
      (forall conv, In conv convs ->
         messages conv <> [] /\
         forall a b, adjacent a b (messages conv) ->
                     (timestamp b - timestamp a <= gap)%Z) /\
      (forall c1 c2 a b,
         adjacent c1 c2 convs ->
         lastOf (messages c1) = Some a -> hd_error (messages c2) = Some b ->
         (gap < timestamp b - timestamp a)%Z) /\
      (forall a b,
         adjacent a b msgs -> timestamp a = timestamp b ->
         exists conv, In conv convs /\ adjacent a b (messages conv)).
Proof.
  intros gap msgs Hgap Hsorted.
  destruct (groupWith_Steps gap msgs) as (convs & E & Hsteps).
  rewrite (sort_of_sorted Hsorted) in E, Hsteps.
  exists convs. split; [exact E|]. split; [|split].
  - intros conv Hin. split.
    + revert conv Hin. apply Forall_forall.
      eapply Steps_Forall with (P := fun c => messages c <> []);
        [ | | exact Hsteps | constructor].
      * intros m. discriminate.
      * intros c prev m _ _ _. simpl. now destruct (messages c).
    + revert conv Hin.
      change (forall conv, In conv convs -> withinGap gap conv).
      apply Forall_forall.
      eapply Steps_withinGap; [exact Hsteps | constructor].
  - change (apart gap convs). apply (Steps_apart Hsteps).
    intros c1 c2 a b (l1 & l2 & H). destruct l1; discriminate.
  - intros a b (l1 & l2 & ->) Hts.
    apply (Steps_joins (gap := gap) a b l1 l2); [lia | exact Hsteps].
Qed.

Lemma group_gap_invariant_witness :
  (0 < GAP_MS)%Z /\ sortedByTimestamp Samples.scenario /\
  exists convs,
    groupWith GAP_MS Samples.scenario = (Samples.scenario, Normal convs) /\
    (forall conv, In conv convs ->
       messages conv <> [] /\
       forall a b, adjacent a b (messages conv) ->
                   (timestamp b - timestamp a <= GAP_MS)%Z) /\
    (forall c1 c2 a b,
       adjacent c1 c2 convs ->
       lastOf (messages c1) = Some a -> hd_error (messages c2) = Some b ->
       (GAP_MS < timestamp b - timestamp a)%Z) /\
    (forall a b,
       adjacent a b Samples.scenario -> timestamp a = timestamp b ->
       exists conv, In conv convs /\ adjacent a b (messages conv)).
Proof.
  assert (0 < GAP_MS)%Z as Hg by reflexivity.
  assert (sortedByTimestamp Samples.scenario) as H.
  { repeat constructor; unfold byTimestamp; simpl; lia. }
  split; [exact Hg|]. split; [exact H|].
  exact (group_gap_invariant Hg H).
Defined.

(** C5. The call returns, and in every conversation it returns the title is
    the first 50 code units of the text of the conversation's first message
    (the whole text when it is shorter) followed by ["..."], appended in
    every case; a first message with empty text gives the title ["..."]. *)
Theorem group_title_is_prefix_and_ellipsis :
  forall msgs : list Message,
    exists convs,
      snd (groupIntoConversations msgs) = Normal convs /\
      forall conv, In conv convs ->
        exists first rest,
          messages conv = first :: rest /\
          title conv = (substring0 50 (content first) ++ "...")%string /\
          (exists tail,
              content first = (substring0 50 (content first) ++ tail)%string) /\
          String.length (substring0 50 (content first)) =
            Nat.min 50 (String.length (content first)) /\
          (content first = ""%string -> title conv = "..."%string).
Proof.
  intros msgs.
  destruct (groupWith_Steps GAP_MS msgs) as (convs & E & Hsteps).
  exists convs. unfold groupIntoConversations. rewrite E. split; [reflexivity|].
  intros conv Hin.
  assert (Forall titled convs) as Ht
    by (eapply Steps_titled; [exact Hsteps | constructor]).
  rewrite Forall_forall in Ht.
  destruct (Ht conv Hin) as (first & rest & Hm & Htitle).
  exists first, rest. repeat split; try assumption.
  - apply StringFacts.substring0_prefix.
  - apply StringFacts.substring0_length.
  - intros Hempty. rewrite Htitle, Hempty. reflexivity.
Qed.

(** C6, refuted. The two messages of [Samples.swapped] are not in ascending
    order of timestamp, and the call on them throws nothing: it returns one
    conversation holding both, earliest first. *)
Lemma group_unsorted_returns :
  ~ sortedByTimestamp Samples.swapped /\
  snd (groupIntoConversations Samples.swapped) =
    Normal [ {| title := "Deploy the build tonight...";
                messages := [Samples.first; Samples.second];
                participants := ["ana"; "ben"];
                tags := ["Development"; "Business"] |} ] /\
  snd (groupIntoConversations Samples.swapped) <> Throw "InvalidInputError".
Proof.
  split; [|split].
  - intros H. inversion H as [|? ? _ Hd]; subst.
    inversion Hd as [|? ? Hle]; subst.
    unfold byTimestamp in Hle. simpl in Hle. lia.
  - reflexivity.
  - discriminate.
Qed.

(** C6, as the code has it. For every sequence of messages, in order or
    not, the call throws nothing: it returns conversations whose messages,
    one conversation after the other, are the input sorted ascending by
    timestamp, a rearrangement of the input. *)
Theorem group_never_throws :
  forall msgs : list Message,
    exists convs,
      snd (groupIntoConversations msgs) = Normal convs /\
      flatten convs = sort msgs /\
      sortedByTimestamp (flatten convs) /\
      Permutation msgs (flatten convs).
Proof.
  intros msgs.
  destruct (groupWith_Steps GAP_MS msgs) as (convs & E & Hsteps).
  exists convs. unfold groupIntoConversations. rewrite E.
  rewrite (Steps_flatten Hsteps). simpl.
  repeat split; [apply sort_sorted | apply sort_perm].
Qed.

(** C7, refuted. Called on [Samples.swapped], the call leaves the caller's
    array in the other order. *)
Lemma group_reorders_caller_array :
  fst (groupIntoConversations Samples.swapped) = [Samples.first; Samples.second] /\
  fst (groupIntoConversations Samples.swapped) <> Samples.swapped.
Proof.
  split; [reflexivity | discriminate].
Qed.

(** C7, as the code has it. The call sorts the caller's array in place: for
    every sequence, the array after the call is in ascending order of
    timestamp, is a rearrangement of the sequence passed in, keeps messages
    with one timestamp in their order, and is the sequence passed in when
    that was in order already; the conversations are cut from the array as
    sorted. *)
Theorem group_sorts_caller_array :
  forall msgs : list Message,
    fst (groupIntoConversations msgs) = sort msgs /\
    sortedByTimestamp (sort msgs) /\
    Permutation msgs (sort msgs) /\
    (forall t, stampedAt t (sort msgs) = stampedAt t msgs) /\
    (sortedByTimestamp msgs -> sort msgs = msgs) /\
    exists convs,
      snd (groupIntoConversations msgs) = Normal convs /\
      flatten convs = fst (groupIntoConversations msgs).
Proof.
  intros msgs.
  destruct (groupWith_Steps GAP_MS msgs) as (convs & E & Hsteps).
  unfold groupIntoConversations. rewrite E. simpl.
  split; [reflexivity|]. split; [apply sort_sorted|].
  split; [apply sort_perm|]. split; [intros t; apply sort_stampedAt|].
  split; [apply sort_of_sorted|].
  exists convs. split; [reflexivity|].
  now rewrite (Steps_flatten Hsteps).
Qed.

(** C8. When every message carries as [tag] the label of its own text, as
    [exportChannelToMarkdown] builds them, the call returns conversations in
    each of which [tags] is the set of the labels of the member messages,
    each text classified on its own, and [participants] is the set of their
    authors; neither has a repeated element. *)
Theorem group_tags_and_participants :
  forall msgs : list Message,
    Forall (fun m => tag m = classifyMessage (content m)) msgs ->
    exists convs,
      snd (groupIntoConversations msgs) = Normal convs /\
      forall conv, In conv convs ->
        tags conv =
          JsSet.of_list (map (fun m => classifyMessage (content m)) (messages conv)) /\
        participants conv = JsSet.of_list (map author (messages conv)) /\
        NoDup (tags conv) /\
        NoDup (participants conv) /\
        (forall label,
            In label (tags conv) <->
            exists m, In m (messages conv) /\ classifyMessage (content m) = label) /\
        (forall who,
            In who (participants conv) <->
            exists m, In m (messages conv) /\ author m = who).
Proof.
  intros msgs Htag.
  destruct (groupWith_Steps GAP_MS msgs) as (convs & E & Hsteps).
  exists convs. unfold groupIntoConversations. rewrite E. split; [reflexivity|].
  intros conv Hin.
  assert (Forall aggregated convs) as Hagg
    by (eapply Steps_aggregated; [exact Hsteps | constructor]).
  rewrite Forall_forall in Hagg. destruct (Hagg conv Hin) as [Hp Ht].
  assert (map tag (messages conv) =
          map (fun m => classifyMessage (content m)) (messages conv)) as Hmap.
  { apply map_ext_in. intros m Hm.
    assert (In m (sort msgs)) as Hs.
    { pose proof (Steps_flatten Hsteps) as F. simpl in F. rewrite <- F.
      eapply In_flatten; eauto. }
    apply (Permutation_in _ (Permutation_sym (sort_perm msgs))) in Hs.
    rewrite Forall_forall in Htag. now apply Htag. }
  rewrite Hmap in Ht. rewrite Ht, Hp.
  split; [reflexivity|]. split; [reflexivity|].
  split; [apply SetFacts.of_list_NoDup|]. split; [apply SetFacts.of_list_NoDup|].
  split.
  - intros label. rewrite SetFacts.of_list_In, in_map_iff.
    split; intros (m & H1 & H2); exists m; tauto.
  - intros who. rewrite SetFacts.of_list_In, in_map_iff.
    split; intros (m & H1 & H2); exists m; tauto.
Qed.

Lemma group_tags_and_participants_witness :
  Forall (fun m => tag m = classifyMessage (content m)) Samples.scenario /\
  exists convs,
    snd (groupIntoConversations Samples.scenario) = Normal convs /\
    forall conv, In conv convs ->
      tags conv =
        JsSet.of_list (map (fun m => classifyMessage (content m)) (messages conv)) /\
      participants conv = JsSet.of_list (map author (messages conv)) /\
      NoDup (tags conv) /\
      NoDup (participants conv) /\
      (forall label,
          In label (tags conv) <->
          exists m, In m (messages conv) /\ classifyMessage (content m) = label) /\
      (forall who,
          In who (participants conv) <->
          exists m, In m (messages conv) /\ author m = who).
Proof.
  assert (Forall (fun m => tag m = classifyMessage (content m)) Samples.scenario)
    as H by (repeat constructor).
  split; [exact H | exact (group_tags_and_participants H)].
Defined.

End SegmenterFacts.

(* ------------------------------------------------------------------ *)
(** ** The webhook handler *)

Module WebhookFacts.

Import WebhookHandler.

Section Gate.

Variable hmacSha256Hex : string -> string -> string.
Variable JSON_stringify : NotionData -> string.
Variable NOTION_SECRET : option string.
Variable userMapping : list (string * string).
Variable now : string.
Variable discordAccepts : DiscordMessage -> bool.

(** The handler and its tail under the configuration of the section. *)
Local Abbreviation handle :=
  (notionWebhook hmacSha256Hex JSON_stringify NOTION_SECRET
                 userMapping now discordAccepts).
Local Abbreviation forwarded :=
  (WebhookHandler.forwarded userMapping now discordAccepts).

Lemma unchecked_forwarded req :
  truthy (xNotionSignature req) = false -> handle req = forwarded req.
Proof.
  intros H. unfold notionWebhook, tryBlock, WebhookHandler.forwarded.
  destruct (xNotionSignature req) as [[|c s]|]; try discriminate;
    destruct (formatDiscordMessage userMapping now (body req)) as [m|e];
    try reflexivity; now destruct (discordAccepts m).
Qed.

Lemma mismatch_rejected req sig secret :
  xNotionSignature req = Some sig -> sig <> ""%string ->
  NOTION_SECRET = Some secret ->
  sig <> hmacSha256Hex secret (JSON_stringify (body req)) ->
  handle req =
    {| posted := [];
       response := {| status := 401; json := ErrorJson "Invalid signature" |} |}.
Proof.
  intros Hsig Hne Hsec Hdiff. unfold notionWebhook, tryBlock.
  rewrite Hsig. destruct sig as [|c s]; [contradiction|].
  unfold verifyNotionSignature. rewrite Hsec. simpl.
  destruct (String.eqb (hmacSha256Hex secret (JSON_stringify (body req)))
                       (String c s)) eqn:E; [|reflexivity].
  apply String.eqb_eq in E. congruence.
Qed.

Lemma match_forwarded req sig secret :
  xNotionSignature req = Some sig ->
  NOTION_SECRET = Some secret ->
  sig = hmacSha256Hex secret (JSON_stringify (body req)) ->
  handle req = forwarded req.
Proof.
  intros Hsig Hsec Heq.
  destruct sig as [|c s] eqn:Es.
  - apply unchecked_forwarded. now rewrite Hsig.
  - unfold notionWebhook, tryBlock, WebhookHandler.forwarded.
    rewrite Hsig. unfold verifyNotionSignature. rewrite Hsec. simpl.
    rewrite <- Heq, String.eqb_refl. simpl.
    destruct (formatDiscordMessage userMapping now (body req)) as [m|e];
      try reflexivity; now destruct (discordAccepts m).
Qed.

(** A body is formatted exactly when it is formattable, and the only throw
    is a [TypeError]. *)
Lemma format_formattable d :
  if formattable d
  then exists msg, formatDiscordMessage userMapping now d = Normal msg
  else formatDiscordMessage userMapping now d = Throw "TypeError".
Proof.
  unfold formattable, formatDiscordMessage.
  destruct (user d) as [u|]; [|reflexivity].
  destruct (page d) as [p|]; [|now destruct (id u)].
  destruct (id u) as [key|]; [|reflexivity].
  destruct (title p) as [pageTitle|]; [|reflexivity].
  destruct (url p) as [pageUrl|]; [|reflexivity].
  cbn [renders andb].
  destruct (changes d) as [[[|c cs] | [|c s] | []]|]; cbn [joinable bind];
    first [reflexivity | eexists; reflexivity].
Qed.

Lemma forwarded_not_401 req : status (response (forwarded req)) <> 401.
Proof.
  unfold WebhookHandler.forwarded.
  destruct (formatDiscordMessage userMapping now (body req)) as [m|e];
    simpl; [destruct (discordAccepts m); simpl|]; discriminate.
Qed.

End Gate.

(** C10, refuted. The request [emptySignature] carries the header with an
    empty value. Whatever the secret and whatever digest function answers 64
    digits, as HMAC-SHA256 in hexadecimal does, the header differs from the
    digest of the body, and the request is neither answered 401 nor held
    back: its message is posted. With the stand-ins it is answered 200. *)
Lemma webhook_empty_signature_forwarded :
  xNotionSignature WebhookSamples.emptySignature = Some ""%string /\
  (forall hmac stringify secret mapping now accepts,
      (forall key data, String.length (hmac key data) = 64) ->
      ""%string <> hmac secret (stringify (body WebhookSamples.emptySignature)) /\
      status (response (notionWebhook hmac stringify (Some secret) mapping now
                                      accepts WebhookSamples.emptySignature)) <> 401 /\
      posted (notionWebhook hmac stringify (Some secret) mapping now
                            accepts WebhookSamples.emptySignature) <> []) /\
  notionWebhook WebhookSamples.zeroDigest WebhookSamples.render (Some "s3cret"%string)
                [] "2026-01-05T09:00:00.000Z" (fun _ => true)
                WebhookSamples.emptySignature =
    {| posted := [WebhookSamples.pageUpdateMessage "2026-01-05T09:00:00.000Z"];
       response := {| status := 200; json := SuccessJson true |} |}.
Proof.
  split; [reflexivity|]. split; [|reflexivity].
  intros hmac stringify secret mapping now accepts Hlen. split; [|split].
  - intros H. specialize (Hlen secret (stringify (body WebhookSamples.emptySignature))).
    rewrite <- H in Hlen. discriminate.
  - rewrite unchecked_forwarded by reflexivity. apply forwarded_not_401.
  - rewrite unchecked_forwarded by reflexivity.
    unfold forwarded. simpl. discriminate.
Qed.

(** C10, as the code has it. The signature is checked only when the header
    is present with a non-empty value. A request without the header, or with
    an empty one, is handled by the statements after the check alone, which
    use neither the secret nor the digest: it is never answered 401, and
    when its body can be formatted (it has a page and a user, the texts
    taken from them can be taken, and [changes] is absent, an array that
    can be joined, or a value that fails the guard) the formatted message
    is posted and the answer is 200 if Discord accepts it and 500 if not;
    a body that cannot be formatted, for want of a page or a user or
    because [changes] is a non-empty string, say, is answered 500 and
    nothing is posted. A request whose non-empty header
    differs from the digest of the serialised body under the configured
    secret is answered 401 and nothing is posted. *)
Theorem webhook_signature_gate :
  forall (hmac : string -> string -> string) (stringify : NotionData -> string)
         (SECRET : option string) (mapping : list (string * string))
         (now : string) (accepts : DiscordMessage -> bool) (req : Request),
    (truthy (xNotionSignature req) = false ->
     notionWebhook hmac stringify SECRET mapping now accepts req =
       forwarded mapping now accepts req) /\
    status (response (forwarded mapping now accepts req)) <> 401 /\
    (forall msg,
        formatDiscordMessage mapping now (body req) = Normal msg ->
        posted (forwarded mapping now accepts req) = [msg] /\
        status (response (forwarded mapping now accepts req)) =
          (if accepts msg then 200 else 500)) /\
    (forall e,
        formatDiscordMessage mapping now (body req) = Throw e ->
        posted (forwarded mapping now accepts req) = [] /\
        status (response (forwarded mapping now accepts req)) = 500) /\
    (formattable (body req) = true ->
     exists msg, formatDiscordMessage mapping now (body req) = Normal msg) /\
    (formattable (body req) = false ->
     formatDiscordMessage mapping now (body req) = Throw "TypeError") /\
    (page (body req) = None \/ user (body req) = None \/
     joinable (changes (body req)) = false ->
     formattable (body req) = false) /\
    (forall sig secret,
        xNotionSignature req = Some sig -> sig <> ""%string ->
        SECRET = Some secret ->
        sig <> hmac secret (stringify (body req)) ->
        notionWebhook hmac stringify SECRET mapping now accepts req =
          {| posted := [];
             response := {| status := 401;
                            json := ErrorJson "Invalid signature" |} |}).
Proof.
  intros hmac stringify SECRET mapping now accepts req.
  split; [apply unchecked_forwarded|].
  split; [apply forwarded_not_401|].
  pose proof (format_formattable mapping now (body req)) as Hfmt.
  split; [|split; [|split; [|split; [|split]]]].
  - intros msg E. unfold forwarded. rewrite E. simpl.
    split; [reflexivity | now destruct (accepts msg)].
  - intros e E. unfold forwarded. rewrite E. simpl. tauto.
  - intros H. now rewrite H in Hfmt.
  - intros H. now rewrite H in Hfmt.
  - unfold formattable. intros [H | [H | H]].
    + rewrite H. now destruct (user (body req)).
    + now rewrite H.
    + rewrite H. destruct (user (body req)), (page (body req)); try reflexivity.
      now rewrite !andb_false_r.
  - intros sig secret. apply mismatch_rejected.
Qed.

Lemma webhook_signature_gate_witness :
  notionWebhook WebhookSamples.zeroDigest WebhookSamples.render (Some "s3cret"%string)
                [] "2026-01-05T09:00:00.000Z" (fun _ => true)
                WebhookSamples.unsigned =
    {| posted := [WebhookSamples.pageUpdateMessage "2026-01-05T09:00:00.000Z"];
       response := {| status := 200; json := SuccessJson true |} |} /\
  notionWebhook WebhookSamples.zeroDigest WebhookSamples.render (Some "s3cret"%string)
                [] "2026-01-05T09:00:00.000Z" (fun _ => true)
                WebhookSamples.forged =
    {| posted := [];
       response := {| status := 401; json := ErrorJson "Invalid signature" |} |}.
Proof.
  pose (gate := webhook_signature_gate WebhookSamples.zeroDigest WebhookSamples.render
                  (Some "s3cret"%string) [] "2026-01-05T09:00:00.000Z" (fun _ => true)).
  split.
  - exact (eq_trans (proj1 (gate WebhookSamples.unsigned) eq_refl) eq_refl).
  - refine (proj2 (proj2 (proj2 (proj2 (proj2 (proj2 (proj2
              (gate WebhookSamples.forged)))))))
              "deadbeef"%string "s3cret"%string eq_refl _ eq_refl _);
      discriminate.
Defined.

End WebhookFacts.

(* ------------------------------------------------------------------ *)
(** ** The definitions at work *)

Module Examples.

Import ExportArchive.

Example classify_deploy :
  classifyMessage "Deploy the build tonight" = "Development"%string.
Proof. reflexivity. Qed.

Example classify_two_topics :
  classifyMessage "meeting about the server" = "Business"%string.
Proof. reflexivity. Qed.

(** Timestamps [t0], [t0 + 5 min], [t0 + 40 min], [t0 + 41 min] and a gap
    of 30 minutes: two conversations of two messages each. *)
Example scenario_two_conversations :
  groupIntoConversations Samples.scenario =
    (Samples.scenario,
     Normal [ {| title := "Deploy the build tonight...";
                 messages := [Samples.first; Samples.second];
                 participants := ["ana"; "ben"]%string;
                 tags := ["Development"; "Business"]%string |};
              {| title := "...";
                 messages := [Samples.third; Samples.fourth];
                 participants := ["ana"]%string;
                 tags := ["Uncategorized"; "Vegas/MGM"]%string |} ]).
Proof. reflexivity. Qed.

Example empty_input_no_conversations :
  groupIntoConversations [] = ([], Normal []).
Proof. reflexivity. Qed.

Example long_title_cut_at_50 :
  title (Segments.opened
           (exportedMessage "1" "ana" "u1"
              "0123456789012345678901234567890123456789012345678901234567890"
              0 [])) =
    "01234567890123456789012345678901234567890123456789..."%string.
Proof. reflexivity. Qed.

End Examples.

(* ================================================================== *)
(** * Further facts about the webhook handler *)

Module WebhookExtras.

Import WebhookHandler.

(** X1. Whatever the configuration and the request, the handler ends in one
    of three ways: 200 with exactly one message posted, the one formatted
    from the body, which Discord accepted; 401 with nothing posted, and only
    for a request with a non-empty signature header; or 500 with either
    nothing posted or one message that Discord did not accept. *)
Theorem webhook_three_outcomes :
  forall (hmac : string -> string -> string) (stringify : NotionData -> string)
         (SECRET : option string) (mapping : list (string * string))
         (now : string) (accepts : DiscordMessage -> bool) (req : Request),
    (response (notionWebhook hmac stringify SECRET mapping now accepts req) =
       {| status := 200; json := SuccessJson true |} /\
     exists msg,
       posted (notionWebhook hmac stringify SECRET mapping now accepts req) = [msg] /\
       formatDiscordMessage mapping now (body req) = Normal msg /\
       accepts msg = true) \/
    (response (notionWebhook hmac stringify SECRET mapping now accepts req) =
       {| status := 401; json := ErrorJson "Invalid signature" |} /\
     posted (notionWebhook hmac stringify SECRET mapping now accepts req) = [] /\
     truthy (xNotionSignature req) = true) \/
    (response (notionWebhook hmac stringify SECRET mapping now accepts req) =
       {| status := 500; json := ErrorJson "Failed to process webhook" |} /\
     (posted (notionWebhook hmac stringify SECRET mapping now accepts req) = [] \/
      exists msg,
        posted (notionWebhook hmac stringify SECRET mapping now accepts req) = [msg] /\
        accepts msg = false)).
Proof.
  intros hmac stringify SECRET mapping now accepts req.
  unfold notionWebhook, tryBlock, verifyNotionSignature.
  destruct (xNotionSignature req) as [[|c s]|]; simpl.
  2: destruct SECRET as [secret|]; simpl; [|right; right; split; [reflexivity | now left]].
  2: destruct (String.eqb (hmac secret (stringify (body req))) (String c s)); simpl;
     [|right; left; repeat split].
  all: destruct (formatDiscordMessage mapping now (body req)) as [m|e];
    [|right; right; split; [reflexivity | now left]].
  all: destruct (accepts m) eqn:E; simpl;
    [left; split; [reflexivity | exists m; repeat split; assumption]
    |right; right; split; [reflexivity | right; exists m; split; [reflexivity | assumption]]].
Qed.

(** X2. A request whose signature header equals the digest of its body under
    the configured secret is handled exactly as the same body sent without
    the header. *)
Theorem webhook_valid_signature_as_unsigned :
  forall (hmac : string -> string -> string) (stringify : NotionData -> string)
         (secret : string) (mapping : list (string * string))
         (now : string) (accepts : DiscordMessage -> bool) (req : Request),
    xNotionSignature req = Some (hmac secret (stringify (body req))) ->
    notionWebhook hmac stringify (Some secret) mapping now accepts req =
    notionWebhook hmac stringify (Some secret) mapping now accepts
                  {| xNotionSignature := None; body := body req |}.
Proof.
  intros hmac stringify secret mapping now accepts req Hsig.
  rewrite (WebhookFacts.match_forwarded hmac stringify mapping now accepts
             req Hsig eq_refl eq_refl).
  now rewrite WebhookFacts.unchecked_forwarded by reflexivity.
Qed.

Lemma webhook_valid_signature_as_unsigned_witness :
  notionWebhook WebhookSamples.zeroDigest WebhookSamples.render (Some "s3cret"%string)
    [] "2026-01-05T09:00:00.000Z" (fun _ => true)
    {| xNotionSignature :=
         Some (WebhookSamples.zeroDigest "s3cret" "page.updated");
       body := WebhookSamples.pageUpdate |} =
  notionWebhook WebhookSamples.zeroDigest WebhookSamples.render (Some "s3cret"%string)
    [] "2026-01-05T09:00:00.000Z" (fun _ => true)
    {| xNotionSignature := None; body := WebhookSamples.pageUpdate |}.
Proof.
  exact (webhook_valid_signature_as_unsigned
           WebhookSamples.zeroDigest WebhookSamples.render "s3cret" []
           "2026-01-05T09:00:00.000Z" (fun _ => true)
           {| xNotionSignature :=
                Some (WebhookSamples.zeroDigest "s3cret" "page.updated");
              body := WebhookSamples.pageUpdate |} eq_refl).
Defined.

(** X3. With [NOTION_SECRET] unset, every request that carries a non-empty
    signature header is answered 500 and nothing is posted, whatever the
    header's value: the digest cannot be computed. *)
Theorem webhook_unset_secret_answers_500 :
  forall (hmac : string -> string -> string) (stringify : NotionData -> string)
         (mapping : list (string * string)) (now : string)
         (accepts : DiscordMessage -> bool) (req : Request),
    truthy (xNotionSignature req) = true ->
    notionWebhook hmac stringify None mapping now accepts req =
      {| posted := [];
         response := {| status := 500;
                        json := ErrorJson "Failed to process webhook" |} |}.
Proof.
  intros hmac stringify mapping now accepts req H.
  unfold notionWebhook, tryBlock.
  destruct (xNotionSignature req) as [[|c s]|]; try discriminate. reflexivity.
Qed.

Lemma webhook_unset_secret_answers_500_witness :
  notionWebhook WebhookSamples.zeroDigest WebhookSamples.render None
    [] "2026-01-05T09:00:00.000Z" (fun _ => true) WebhookSamples.forged =
  {| posted := [];
     response := {| status := 500;
                    json := ErrorJson "Failed to process webhook" |} |}.
Proof.
  exact (webhook_unset_secret_answers_500
           WebhookSamples.zeroDigest WebhookSamples.render []
           "2026-01-05T09:00:00.000Z" (fun _ => true) WebhookSamples.forged eq_refl).
Defined.

(** X4. [formatDiscordMessage] throws exactly when the body cannot be
    formatted: [user] or [page] is missing, [user.id], [page.title] or
    [page.url] cannot be turned into a text, or [changes] passes the guard
    without being an array that can be joined (a non-empty string, for
    one). What it throws is a [TypeError]. *)
Theorem format_throws_iff_unformattable :
  forall (mapping : list (string * string)) (now : string) (d : NotionData),
    ((exists e, formatDiscordMessage mapping now d = Throw e) <->
     (user d = None \/ page d = None \/
      (exists u, user d = Some u /\ id u = None) \/
      (exists p, page d = Some p /\ (title p = None \/ url p = None)) \/
      (exists text, changes d = Some (ChangesString text) /\ text <> ""%string) \/
      changes d = Some (ChangesOther true))) /\
    (forall e, formatDiscordMessage mapping now d = Throw e -> e = "TypeError"%string).
Proof.
  intros mapping now d.
  pose proof (WebhookFacts.format_formattable mapping now d) as Hfmt.
  assert (formattable d = false <->
          (user d = None \/ page d = None \/
           (exists u, user d = Some u /\ id u = None) \/
           (exists p, page d = Some p /\ (title p = None \/ url p = None)) \/
           (exists text, changes d = Some (ChangesString text) /\ text <> ""%string) \/
           changes d = Some (ChangesOther true))) as Hiff.
  { unfold formattable.
    destruct (user d) as [u|]; [|split; auto].
    destruct (page d) as [p|]; [|split; auto].
    destruct (id u) as [key|] eqn:Ei.
    2: { split; [intros _ | reflexivity]. right. right. left. now exists u. }
    destruct (title p) as [t|] eqn:Et.
    2: { split; [intros _ | reflexivity]. do 3 right. left. exists p. auto. }
    destruct (url p) as [l|] eqn:Eu.
    2: { split; [intros _ | reflexivity]. do 3 right. left. exists p. auto. }
    cbn [renders andb].
    destruct (changes d) as [[[|c cs] | [|c s] | []]|]; cbn [joinable]; split;
      try discriminate; try reflexivity.
    all: try (intros _; do 4 right; left; eexists; split;
              [reflexivity | discriminate]).
    all: try (intros _; do 5 right; reflexivity).
    all: intros [H | [H | [(u0 & H & H') | [(p0 & H & [H' | H']) |
                [(text & H & H') | H]]]]]; try discriminate H;
      try (injection H as <-; congruence). }
  destruct (formattable d).
  - destruct Hfmt as [msg Hmsg]. split.
    + split; [intros [e He]; congruence|].
      intros H. apply Hiff in H. discriminate H.
    + intros e He. congruence.
  - split.
    + split; [intros _; now apply Hiff | intros _; eexists; exact Hfmt].
    + intros e He. congruence.
Qed.

(** X5. A formatted message has the fields Page, Updated By and Type, in
    that order, followed by a field Changes exactly when [changes] is a
    non-empty array; the value of Changes is the first 1024 code units of
    the entries joined with a backslash and an [n], so it is never longer
    than 1024. *)
Theorem format_fields_and_changes_limit :
  forall (mapping : list (string * string)) (now : string) (d : NotionData)
         (msg : DiscordMessage),
    formatDiscordMessage mapping now d = Normal msg ->
    match changes d with
    | Some (ChangesArray (c :: cs)) =>
        map fieldName (fields msg) = ["Page"; "Updated By"; "Type"; "Changes"]%string /\
        exists f,
          ExportArchive.lastOf (fields msg) = Some f /\
          fieldValue f = substring0 1024 (String.concat "\n" (c :: cs)) /\
          String.length (fieldValue f) <= 1024 /\
          exists tail,
            String.concat "\n" (c :: cs) = (fieldValue f ++ tail)%string
    | _ => map fieldName (fields msg) = ["Page"; "Updated By"; "Type"]%string
    end.
Proof.
  intros mapping now d msg. unfold formatDiscordMessage.
  destruct (user d) as [u|]; [|discriminate].
  destruct (id u) as [key|]; [|discriminate].
  destruct (page d) as [p|]; [|discriminate].
  destruct (title p) as [pageTitle|]; [|discriminate].
  destruct (url p) as [pageUrl|]; [|discriminate].
  destruct (changes d) as [[[|c cs] | [|c s] | []]|]; cbn [bind];
    intros H; try discriminate H; injection H as <-; try reflexivity.
  split; [reflexivity|].
  exists {| fieldName := "Changes";
            fieldValue := substring0 1024 (String.concat "\n" (c :: cs));
            inline := None |}.
  split; [reflexivity|]. split; [reflexivity|].
  cbv beta iota delta [fieldValue]. split.
  - rewrite StringFacts.substring0_length. apply Nat.le_min_l.
  - apply StringFacts.substring0_prefix.
Qed.

Lemma format_fields_and_changes_limit_witness :
  map fieldName (fields (WebhookSamples.pageUpdateMessage "T")) =
    ["Page"; "Updated By"; "Type"; "Changes"]%string /\
  exists f,
    ExportArchive.lastOf (fields (WebhookSamples.pageUpdateMessage "T")) = Some f /\
    fieldValue f = substring0 1024 (String.concat "\n" ["status: done"%string]) /\
    String.length (fieldValue f) <= 1024 /\
    exists tail,
      String.concat "\n" ["status: done"%string] = (fieldValue f ++ tail)%string.
Proof.
  exact (format_fields_and_changes_limit [] "T" WebhookSamples.pageUpdate eq_refl).
Defined.

End WebhookExtras.

(* ================================================================== *)
(** * Further facts about the segmenter and the upload *)

Module SegmenterExtras.

Import ExportArchive Segments ArrayFacts SortFacts LoopFacts.

Lemma byTimestamp_trans a b c :
  byTimestamp a b -> byTimestamp b c -> byTimestamp a c.
Proof. unfold byTimestamp. lia. Qed.

Lemma sorted_strongly l :
  sortedByTimestamp l -> StronglySorted byTimestamp l.
Proof.
  apply Sorted_StronglySorted. intros a b c. apply byTimestamp_trans.
Qed.

Lemma strongly_app l1 l2 :
  StronglySorted byTimestamp (l1 ++ l2) ->
  StronglySorted byTimestamp l1 /\ StronglySorted byTimestamp l2.
Proof.
  induction l1 as [|a l1 IH]; simpl; intros H.
  - split; [constructor | exact H].
  - inversion H as [|? ? Hs Hf]; subst. destruct (IH Hs) as [H1 H2].
    split; [|exact H2]. constructor; [exact H1|].
    apply Forall_app in Hf. tauto.
Qed.

Lemma strongly_last front last :
  StronglySorted byTimestamp (front ++ [last]) ->
  forall m, In m (front ++ [last]) -> byTimestamp m last.
Proof.
  induction front as [|a front IH]; simpl; intros H m Hm.
  - destruct Hm as [<- | []]. unfold byTimestamp. lia.
  - inversion H as [|? ? Hs Hf]; subst. destruct Hm as [<- | Hm]; [|now apply IH].
    rewrite Forall_forall in Hf. apply Hf, in_or_app. right. now left.
Qed.

Lemma flatten_app G1 G2 : flatten (G1 ++ G2) = flatten G1 ++ flatten G2.
Proof. unfold flatten. now rewrite map_app, concat_app. Qed.

(** The messages of each conversation cut from a sorted array are sorted. *)
Lemma conversation_sorted convs conv :
  sortedByTimestamp (flatten convs) -> In conv convs ->
  StronglySorted byTimestamp (messages conv).
Proof.
  intros Hs Hin. apply in_split in Hin as (G1 & G2 & ->).
  apply sorted_strongly in Hs.
  rewrite flatten_app in Hs. apply strongly_app in Hs as [_ Hs].
  change (flatten (conv :: G2)) with (messages conv ++ flatten G2) in Hs.
  now apply strongly_app in Hs.
Qed.

Lemma Steps_populated gap convs msgs convs' :
  Steps gap convs msgs convs' -> populated convs -> populated convs'.
Proof.
  apply Steps_Forall.
  - intros m. discriminate.
  - intros conv prev m _ _ _. simpl. now destruct (messages conv).
Qed.

(** X6. For every input, each conversation the segmenter returns can be
    turned into a Notion page request without a throw: its date range
    starts at the timestamp of the conversation's first message and ends at
    that of its last, the start is not after the end, every message of the
    conversation lies between them, the message count is the number of
    messages and at least 1, and the page has one heading and one paragraph
    per message. *)
Theorem grouped_conversation_page_request :
  forall (toISOString : Z -> string) (channelName : string) (msgs : list Message),
    exists convs,
      snd (groupIntoConversations msgs) = Normal convs /\
      forall conv, In conv convs ->
        exists request firstMsg lastMsg,
          NotionUpload.pageRequest toISOString conv channelName = Normal request /\
          hd_error (messages conv) = Some firstMsg /\
          lastOf (messages conv) = Some lastMsg /\
          NotionUpload.DateRangeStart (NotionUpload.properties request) =
            toISOString (timestamp firstMsg) /\
          NotionUpload.DateRangeEnd (NotionUpload.properties request) =
            toISOString (timestamp lastMsg) /\
          (timestamp firstMsg <= timestamp lastMsg)%Z /\
          (forall m, In m (messages conv) ->
                     (timestamp firstMsg <= timestamp m <= timestamp lastMsg)%Z) /\
          NotionUpload.MessageCount (NotionUpload.properties request) =
            List.length (messages conv) /\
          1 <= NotionUpload.MessageCount (NotionUpload.properties request) /\
          List.length (NotionUpload.children request) =
            S (List.length (messages conv)).
Proof.
  intros toISOString channelName msgs.
  destruct (groupWith_Steps GAP_MS msgs) as (convs & E & Hsteps).
  exists convs. unfold groupIntoConversations. rewrite E. split; [reflexivity|].
  intros conv Hin.
  assert (StronglySorted byTimestamp (messages conv)) as Hs.
  { apply (conversation_sorted convs); [|exact Hin].
    rewrite (Steps_flatten Hsteps). apply sort_sorted. }
  assert (messages conv <> []) as Hne.
  { pose proof (Steps_populated Hsteps (Forall_nil _)) as Hp.
    unfold populated in Hp. rewrite Forall_forall in Hp. now apply Hp. }
  destruct (snoc_case (messages conv)) as [E0 | (front & lastMsg & Hl)];
    [contradiction|].
  destruct (messages conv) as [|firstMsg rest] eqn:Hm; [contradiction|].
  assert (lastOf (firstMsg :: rest) = Some lastMsg) as Hlast
    by (rewrite Hl; apply lastOf_snoc).
  unfold NotionUpload.pageRequest. rewrite Hm, Hlast.
  eexists. exists firstMsg, lastMsg. split; [reflexivity|].
  assert (forall m, In m (firstMsg :: rest) ->
                    (timestamp firstMsg <= timestamp m <= timestamp lastMsg)%Z) as Hb.
  { intros m Hin'. split.
    - inversion Hs as [|? ? _ Hf]; subst. destruct Hin' as [<- | Hin']; [lia|].
      rewrite Forall_forall in Hf. now apply Hf.
    - rewrite Hl in Hs, Hin'. exact (strongly_last front lastMsg Hs m Hin'). }
  split; [reflexivity|]. split; [first [exact Hlast | reflexivity]|].
  split; [reflexivity|]. split; [reflexivity|].
  split; [apply (Hb firstMsg); now left|]. split; [exact Hb|].
  split; [reflexivity|]. split; [simpl; lia|].
  simpl. now rewrite length_map.
Qed.

(** X7. When the input is not empty, is sorted ascending by timestamp, and
    no message comes more than 30 minutes after the one before it, the
    segmenter returns exactly one conversation, and it holds all the
    messages in order. *)
Theorem group_single_conversation :
  forall msgs : list Message,
    msgs <> [] ->
    sortedByTimestamp msgs ->
    (forall a b, adjacent a b msgs -> (timestamp b - timestamp a <= GAP_MS)%Z) ->
    exists conv,
      snd (groupIntoConversations msgs) = Normal [conv] /\
      messages conv = msgs.
Proof.
  intros msgs Hne Hsorted Hclose.
  destruct (groupWith_Steps GAP_MS msgs) as (convs & E & Hsteps).
  rewrite (sort_of_sorted Hsorted) in E, Hsteps.
  unfold groupIntoConversations. rewrite E. simpl.
  destruct msgs as [|m0 rest]; [contradiction|].
  inversion Hsteps as [|? ? c1 ? ? Hfirst Hrest]; subst.
  assert (c1 = [opened m0]) as ->.
  { inversion Hfirst as [c m _ | front conv prev m _ _]; subst; [reflexivity|].
    destruct front; discriminate. }
  clear Hfirst Hsteps E Hne Hsorted.
  assert (forall ms conv convs' p,
             Steps GAP_MS [conv] ms convs' ->
             lastOf (messages conv) = Some p ->
             (forall a b, adjacent a b (p :: ms) ->
                          (timestamp b - timestamp a <= GAP_MS)%Z) ->
             exists conv', convs' = [conv'] /\ messages conv' = messages conv ++ ms)
    as Hgen.
  { induction ms as [|m ms IH]; intros conv convs' p Hs Hp Hc.
    - inversion Hs; subst. exists conv. now rewrite app_nil_r.
    - inversion Hs as [|? ? c2 ? ? Hstep Hmore]; subst.
      assert (timestamp m - timestamp p <= GAP_MS)%Z as Hpm
        by (apply Hc; now exists [], ms).
      inversion Hstep as [c x Hopen | front conv0 prev x Hl Hg]; subst.
      + specialize (Hopen conv p eq_refl Hp). lia.
      + match goal with
        | H : ?f ++ [_] = [_] |- _ =>
            destruct f as [|? [|? ?]]; try discriminate H;
            simpl in H; injection H as ->
        end.
        destruct (IH (addMessage m conv) convs' m Hmore) as (conv' & -> & Hm').
        * simpl. apply lastOf_snoc.
        * intros a b (l1 & l2 & Hab). apply Hc. exists (p :: l1), l2.
          simpl. now rewrite Hab.
        * exists conv'. split; [reflexivity|].
          rewrite Hm'. simpl. now rewrite <- app_assoc. }
  destruct (Hgen rest (opened m0) convs m0 Hrest eq_refl Hclose) as (conv & -> & Hm).
  exists conv. split; [reflexivity | exact Hm].
Qed.

Lemma group_single_conversation_witness :
  exists conv,
    snd (groupIntoConversations [Samples.first; Samples.second]) = Normal [conv] /\
    messages conv = [Samples.first; Samples.second].
Proof.
  apply group_single_conversation.
  - discriminate.
  - repeat constructor. unfold byTimestamp. simpl. lia.
  - intros a b (l1 & l2 & H).
    destruct l1 as [|x [|y l1]]; simpl in H.
    + injection H as <- <- _. vm_compute. discriminate.
    + discriminate.
    + destruct l1; discriminate.
Defined.

(** X8. Running the segmenter again on the array the first call left
    behind changes nothing: the array stays as it is and the same
    conversations are returned. *)
Theorem group_again_same_result :
  forall msgs : list Message,
    groupIntoConversations (fst (groupIntoConversations msgs)) =
    groupIntoConversations msgs.
Proof.
  intros msgs. unfold groupIntoConversations, groupWith. simpl.
  now rewrite (sort_of_sorted (sort_sorted msgs)).
Qed.

Lemma Steps_count gap convs msgs convs' :
  Steps gap convs msgs convs' ->
  forall conv p,
    lastOf convs = Some conv -> lastOf (messages conv) = Some p ->
    List.length convs' = List.length convs + Breaks.gapsExceeded gap (p :: msgs).
Proof.
  induction 1 as [|convs msg convs1 rest convs2 Hstep _ IH]; intros conv p Hc Hp.
  - simpl. lia.
  - destruct (Step_last Hstep) as (c1 & Hc1 & Hm1).
    rewrite (IH c1 msg Hc1 Hm1).
    change (Breaks.gapsExceeded gap (p :: msg :: rest))
      with ((if (gap <? timestamp msg - timestamp p)%Z then 1 else 0) +
            Breaks.gapsExceeded gap (msg :: rest)).
    inversion Hstep as [c m Hopen | front conv0 prev m Hl Hg]; subst.
    + specialize (Hopen conv p Hc Hp).
      rewrite length_app. simpl.
      destruct (gap <? timestamp msg - timestamp p)%Z eqn:E; lia.
    + rewrite lastOf_snoc in Hc. injection Hc as ->.
      rewrite Hp in Hl. injection Hl as ->.
      rewrite !length_app. simpl.
      destruct (gap <? timestamp msg - timestamp prev)%Z eqn:E; lia.
Qed.

Lemma gapsExceeded_length gap m msgs :
  S (Breaks.gapsExceeded gap (m :: msgs)) <= List.length (m :: msgs).
Proof.
  revert m. induction msgs as [|b msgs IH]; intros m; [simpl; lia|].
  change (Breaks.gapsExceeded gap (m :: b :: msgs))
    with ((if (gap <? timestamp b - timestamp m)%Z then 1 else 0) +
          Breaks.gapsExceeded gap (b :: msgs)).
  specialize (IH b). simpl in *.
  destruct (gap <? timestamp b - timestamp m)%Z; lia.
Qed.

(** X9. The number of conversations returned is 0 for an empty input and
    otherwise 1 more than the number of messages that, in timestamp order,
    come more than 30 minutes after their predecessor; it never exceeds the
    number of messages, and no conversation is returned only when there is
    no message. *)
Theorem group_conversation_count :
  forall msgs : list Message,
    exists convs,
      snd (groupIntoConversations msgs) = Normal convs /\
      List.length convs =
        match sort msgs with
        | [] => 0
        | _ :: _ => S (Breaks.gapsExceeded GAP_MS (sort msgs))
        end /\
      List.length convs <= List.length msgs /\
      (convs = [] <-> msgs = []).
Proof.
  intros msgs.
  destruct (groupWith_Steps GAP_MS msgs) as (convs & E & Hsteps).
  exists convs. unfold groupIntoConversations. rewrite E. split; [reflexivity|].
  pose proof (Permutation_length (sort_perm msgs)) as Hlen.
  destruct (sort msgs) as [|m0 rest] eqn:Hs.
  - inversion Hsteps; subst. simpl.
    destruct msgs; [|discriminate]. repeat split; auto; lia.
  - inversion Hsteps as [|? ? c1 ? ? Hfirst Hrest]; subst.
    assert (c1 = [opened m0]) as ->.
    { inversion Hfirst as [c m _ | front conv prev m _ _]; subst; [reflexivity|].
      destruct front; discriminate. }
    pose proof (Steps_count Hrest (conv := opened m0) (p := m0) eq_refl eq_refl)
      as Hcount.
    pose proof (gapsExceeded_length GAP_MS m0 rest) as Hle.
    change (List.length [opened m0]) with 1 in Hcount.
    split; [lia|]. split; [lia|].
    split; intros H0; [subst convs; simpl in Hcount; lia | subst msgs; discriminate].
Qed.

End SegmenterExtras.

(* ================================================================== *)
(** * Further facts about the export and the clean-up *)

Module TextFacts.

Lemma append_assoc (a b c : string) : ((a ++ b) ++ c = a ++ b ++ c)%string.
Proof. induction a as [|x a IH]; simpl; [reflexivity | now rewrite IH]. Qed.

Lemma append_nil_r (a : string) : (a ++ "" = a)%string.
Proof. induction a as [|x a IH]; simpl; [reflexivity | now rewrite IH]. Qed.

(** A text that occurs in [s] occurs in [s] followed by anything. *)
Lemma includes_grows s t k :
  includes s k = true -> includes (s ++ t) k = true.
Proof.
  rewrite !StringFacts.includes_app. intros (a & b & ->).
  exists a, (b ++ t)%string. now rewrite !append_assoc.
Qed.

(** What is appended occurs. *)
Lemma includes_appended s k t : includes (s ++ k ++ t) k = true.
Proof. apply StringFacts.includes_app. now exists s, t. Qed.

End TextFacts.

Module PipelineFacts.

Import ExportArchive ExportPipeline Segments ArrayFacts SortFacts LoopFacts TextFacts.

Section Channel.

Variable fetch : nat -> option string -> completion (list ChannelMessage).
Variable dateLimit : Z.
Variable toISOString : Z -> string.
Variable exportDate : string.
Variable channelName : string.

Lemma pushRecent_collected call cursor page :
  fetch call cursor = Normal page ->
  forall fetched messages,
    incl fetched page ->
    Forall (collected fetch dateLimit) messages ->
    Forall (collected fetch dateLimit) (pushRecent dateLimit fetched messages).
Proof.
  intros Hpage. induction fetched as [|msg rest IH]; intros messages Hincl Hall; simpl.
  - exact Hall.
  - destruct (createdAt msg <? dateLimit)%Z eqn:E; [exact Hall|].
    apply IH.
    + intros x Hx. apply Hincl. now right.
    + apply Forall_app. split; [exact Hall|]. constructor; [|constructor].
      exists call, cursor, page, msg. repeat split; try assumption.
      * apply Hincl. now left.
      * lia.
Qed.

Lemma fetchLoop_collected fuel : forall call lastId messages result,
  fetchLoop fetch dateLimit fuel call lastId messages = Some (Normal result) ->
  Forall (collected fetch dateLimit) messages ->
  Forall (collected fetch dateLimit) result.
Proof.
  induction fuel as [|fuel IH]; intros call lastId messages result; simpl;
    [discriminate|].
  destruct (fetch call lastId) as [page|e] eqn:Hpage; [|discriminate].
  destruct (lastOf page) as [lastFetched|]; [|now intros [= <-]].
  intros H Hall.
  assert (Forall (collected fetch dateLimit) (pushRecent dateLimit page messages))
    as Hnext by (eapply pushRecent_collected; eauto using incl_refl).
  destruct (createdAt lastFetched <? dateLimit)%Z.
  - now injection H as <-.
  - eapply IH; eauto.
Qed.

Lemma collected_recent_classified m :
  collected fetch dateLimit m ->
  (dateLimit <= timestamp m)%Z /\ tag m = classifyMessage (content m).
Proof.
  intros (call & cursor & page & msg & _ & _ & Hd & ->). split; [exact Hd | reflexivity].
Qed.

End Channel.

Lemma export_collects_recent_messages_aux
      (fetch : nat -> option string -> completion (list ChannelMessage))
      (dateLimit : Z) (fuel : nat) (messages : list Message) :
  fetchLoop fetch dateLimit fuel 0 None [] = Some (Normal messages) ->
  forall m, In m messages ->
    (dateLimit <= timestamp m)%Z /\ tag m = classifyMessage (content m).
Proof.
  intros H m Hm.
  assert (Forall (collected fetch dateLimit) messages) as Hall
    by (eapply fetchLoop_collected; [exact H | constructor]).
  rewrite Forall_forall in Hall.
  exact (collected_recent_classified (Hall m Hm)).
Qed.

(** X10. When the fetch loop of [exportChannelToMarkdown] ends normally,
    every message it has collected was built from a message of a fetched
    page, is not older than the date limit, and carries as [tag] the label
    of its own text. *)
Theorem export_collects_recent_messages :
  forall (fetch : nat -> option string -> completion (list ChannelMessage))
         (dateLimit : Z) (fuel : nat) (messages : list Message),
    fetchLoop fetch dateLimit fuel 0 None [] = Some (Normal messages) ->
    forall m, In m messages ->
      collected fetch dateLimit m /\
      (dateLimit <= timestamp m)%Z /\
      tag m = classifyMessage (content m).
Proof.
  intros fetch dateLimit fuel messages H m Hm.
  assert (Forall (collected fetch dateLimit) messages) as Hall
    by (eapply fetchLoop_collected; [exact H | constructor]).
  rewrite Forall_forall in Hall. specialize (Hall m Hm).
  split; [exact Hall | exact (collected_recent_classified Hall)].
Qed.

Lemma export_collects_recent_messages_witness :
  fetchLoop PipelineSamples.pages 4000000 3 0 None [] =
    Some (Normal [toMessage PipelineSamples.newest; toMessage PipelineSamples.middle]) /\
  forall m,
    In m [toMessage PipelineSamples.newest; toMessage PipelineSamples.middle] ->
    collected PipelineSamples.pages 4000000 m /\
    (4000000 <= timestamp m)%Z /\
    tag m = classifyMessage (content m).
Proof.
  split; [reflexivity|].
  exact (@export_collects_recent_messages PipelineSamples.pages 4000000 3 _ eq_refl).
Defined.

(** *** Folds that only append *)

Lemma fold_grows (A : Type) (f : string -> A -> string) :
  (forall md x, exists t, f md x = (md ++ t)%string) ->
  forall l md, exists t, fold_left f l md = (md ++ t)%string.
Proof.
  intros Hf. induction l as [|x l IH]; intros md; simpl.
  - exists ""%string. now rewrite append_nil_r.
  - destruct (Hf md x) as [t1 ->]. destruct (IH (md ++ t1)%string) as [t2 ->].
    exists (t1 ++ t2)%string. apply append_assoc.
Qed.

Lemma fold_includes_kept (A : Type) (f : string -> A -> string) k :
  (forall md x, exists t, f md x = (md ++ t)%string) ->
  forall l md, includes md k = true -> includes (fold_left f l md) k = true.
Proof.
  intros Hf l md H. destruct (@fold_grows A f Hf l md) as [t ->].
  now apply includes_grows.
Qed.

Lemma fold_includes_In (A : Type) (f : string -> A -> string) k x :
  (forall md y, exists t, f md y = (md ++ t)%string) ->
  (forall md, includes (f md x) k = true) ->
  forall l md, In x l -> includes (fold_left f l md) k = true.
Proof.
  intros Hf Hx. induction l as [|y l IH]; intros md Hin; simpl; [destruct Hin|].
  destruct Hin as [-> | Hin]; [|now apply IH].
  now apply fold_includes_kept.
Qed.

Section Markdown.

Variable toISOString : Z -> string.

Lemma url_line_grows (md url : string) :
  exists t, (md ++ "- " ++ url ++ nl = md ++ t)%string.
Proof. now eexists. Qed.

Lemma renderAttachments_grows md msg :
  exists t, renderAttachments md msg = (md ++ t)%string.
Proof.
  unfold renderAttachments. destruct (attachments msg) as [|u us].
  - exists ""%string. now rewrite append_nil_r.
  - destruct (@fold_grows string (fun md url => md ++ "- " ++ url ++ nl)%string
                url_line_grows (u :: us) (md ++ "**Attachments:**" ++ nl)%string)
      as [t ->].
    eexists. rewrite !append_assoc. reflexivity.
Qed.

Lemma renderAttachments_url md msg url :
  In url (attachments msg) -> includes (renderAttachments md msg) url = true.
Proof.
  unfold renderAttachments. intros Hin.
  destruct (attachments msg) as [|u us]; [destruct Hin|].
  apply includes_grows.
  apply (@fold_includes_In string (fun md url => md ++ "- " ++ url ++ nl)%string
            url url); [exact url_line_grows | | exact Hin].
  intros md0. rewrite <- append_assoc. apply includes_appended.
Qed.

Lemma renderMessage_grows md msg :
  exists t, renderMessage toISOString md msg = (md ++ t)%string.
Proof.
  unfold renderMessage.
  destruct (renderAttachments_grows
              ((md ++ "### [" ++ author msg ++ "] " ++
                   toISOString (timestamp msg) ++ nl) ++
               content msg ++ nl ++ nl)%string msg) as [t ->].
  eexists. rewrite !append_assoc. reflexivity.
Qed.

Lemma renderMessage_includes md msg :
  includes (renderMessage toISOString md msg) (content msg) = true /\
  includes (renderMessage toISOString md msg) (author msg) = true /\
  includes (renderMessage toISOString md msg) (toISOString (timestamp msg)) = true /\
  forall url, In url (attachments msg) ->
              includes (renderMessage toISOString md msg) url = true.
Proof.
  unfold renderMessage. repeat split.
  - destruct (renderAttachments_grows
                ((md ++ "### [" ++ author msg ++ "] " ++
                     toISOString (timestamp msg) ++ nl) ++
                 content msg ++ nl ++ nl)%string msg) as [t ->].
    apply includes_grows, includes_appended.
  - destruct (renderAttachments_grows
                ((md ++ "### [" ++ author msg ++ "] " ++
                     toISOString (timestamp msg) ++ nl) ++
                 content msg ++ nl ++ nl)%string msg) as [t ->].
    do 2 apply includes_grows.
    rewrite <- (append_assoc md "### [").
    apply includes_appended.
  - destruct (renderAttachments_grows
                ((md ++ "### [" ++ author msg ++ "] " ++
                     toISOString (timestamp msg) ++ nl) ++
                 content msg ++ nl ++ nl)%string msg) as [t ->].
    do 2 apply includes_grows.
    rewrite <- (append_assoc md "### [").
    rewrite <- (append_assoc (md ++ "### [") (author msg)).
    rewrite <- (append_assoc ((md ++ "### [") ++ author msg) "] ").
    apply includes_appended.
  - intros url Hin. now apply renderAttachments_url.
Qed.

Lemma renderConversation_grows md conv :
  exists t, renderConversation toISOString md conv = (md ++ t)%string.
Proof.
  unfold renderConversation.
  match goal with
  | |- exists t, (fold_left _ _ ?start ++ _)%string = _ =>
      destruct (@fold_grows Message (renderMessage toISOString) renderMessage_grows
                            (messages conv) start) as [t ->]
  end.
  eexists. rewrite !append_assoc. reflexivity.
Qed.

Lemma renderConversation_includes md conv :
  includes (renderConversation toISOString md conv) (title conv) = true /\
  forall msg, In msg (messages conv) ->
    includes (renderConversation toISOString md conv) (content msg) = true /\
    includes (renderConversation toISOString md conv) (author msg) = true /\
    includes (renderConversation toISOString md conv)
             (toISOString (timestamp msg)) = true /\
    forall url, In url (attachments msg) ->
                includes (renderConversation toISOString md conv) url = true.
Proof.
  unfold renderConversation. split.
  - apply includes_grows.
    apply (@fold_includes_kept Message (renderMessage toISOString) (title conv)
              renderMessage_grows).
    do 2 apply includes_grows.
    rewrite <- (append_assoc md "## Conversation: ").
    apply includes_appended.
  - intros msg Hin.
    pose proof (fun md0 => renderMessage_includes md0 msg) as Hmsg.
    repeat split; [| | |intros url Hurl]; apply includes_grows;
      (eapply (@fold_includes_In Message (renderMessage toISOString) _ msg
                 renderMessage_grows); [|exact Hin]);
      intros md0; destruct (Hmsg md0) as (H1 & H2 & H3 & H4);
      first [exact H1 | exact H2 | exact H3 | now apply H4].
Qed.

End Markdown.

Lemma export_unfolded fetch dateLimit toISOString exportDate channelName fuel
      markdown conversations :
  exportChannelToMarkdown fetch dateLimit toISOString exportDate channelName fuel =
    Some (Normal (markdown, conversations)) ->
  exists messages,
    fetchLoop fetch dateLimit fuel 0 None [] = Some (Normal messages) /\
    Steps GAP_MS [] (sort messages) conversations /\
    markdown =
      fold_left (renderConversation toISOString) conversations
                (markdownHeader exportDate channelName (List.length messages)).
Proof.
  unfold exportChannelToMarkdown.
  destruct (fetchLoop fetch dateLimit fuel 0 None []) as [[messages|e]|];
    try discriminate.
  destruct (groupWith_Steps GAP_MS messages) as (convs & E & Hsteps).
  cbn [bind]. unfold groupIntoConversations. rewrite E. cbn [bind snd].
  intros [= <- <-]. exists messages. repeat split. exact Hsteps.
Qed.

(** X11. When [exportChannelToMarkdown] returns, its conversations hold
    exactly the collected messages, in ascending order of timestamp; every
    conversation has a message, none of its messages is older than the date
    limit, its tags are the set of the labels of its messages, each text
    classified on its own, and its participants the set of their authors. *)
Theorem export_conversations_recent_and_tagged :
  forall (fetch : nat -> option string -> completion (list ChannelMessage))
         (dateLimit : Z) (toISOString : Z -> string)
         (exportDate channelName : string) (fuel : nat)
         (markdown : string) (conversations : list Conversation),
    exportChannelToMarkdown fetch dateLimit toISOString exportDate channelName fuel =
      Some (Normal (markdown, conversations)) ->
    exists fetched,
      fetchLoop fetch dateLimit fuel 0 None [] = Some (Normal fetched) /\
      flatten conversations = sort fetched /\
      forall conv, In conv conversations ->
        ExportArchive.messages conv <> [] /\
        (forall m, In m (ExportArchive.messages conv) ->
                   (dateLimit <= timestamp m)%Z) /\
        tags conv =
          JsSet.of_list (map (fun m => classifyMessage (content m))
                             (ExportArchive.messages conv)) /\
        participants conv =
          JsSet.of_list (map author (ExportArchive.messages conv)).
Proof.
  intros fetch dateLimit toISOString exportDate channelName fuel markdown
         conversations H.
  apply export_unfolded in H as (msgs & Hf & Hsteps & _).
  exists msgs. split; [exact Hf|].
  pose proof (Steps_flatten Hsteps) as Hflat. simpl in Hflat.
  split; [exact Hflat|]. intros conv Hin.
  assert (forall m, In m (messages conv) ->
                    (dateLimit <= timestamp m)%Z /\
                    tag m = classifyMessage (content m)) as Hmsg.
  { intros m Hm.
    assert (In m msgs) as Hcol.
    { apply (Permutation_in _ (Permutation_sym (sort_perm msgs))).
      rewrite <- Hflat. unfold flatten. apply in_concat.
      exists (messages conv). split; [now apply in_map | exact Hm]. }
    destruct (export_collects_recent_messages_aux fetch dateLimit fuel Hf m Hcol)
      as [Hd Ht]. tauto. }
  split; [|split].
  - pose proof (SegmenterExtras.Steps_populated Hsteps (Forall_nil _)) as Hp.
    unfold populated in Hp. rewrite Forall_forall in Hp. now apply Hp.
  - intros m Hm. now apply Hmsg.
  - assert (Forall aggregated conversations) as Hagg
      by (eapply Steps_aggregated; [exact Hsteps | constructor]).
    rewrite Forall_forall in Hagg. destruct (Hagg conv Hin) as [Hp Ht].
    rewrite Hp, Ht. split; [|reflexivity]. f_equal.
    apply map_ext_in. intros m Hm. now apply Hmsg.
Qed.

Lemma export_conversations_recent_and_tagged_witness :
  exists markdown conversations,
    exportChannelToMarkdown PipelineSamples.pages 4000000 PipelineSamples.stamp
                            "2026-01-05T09:00:00.000Z" "general" 3 =
      Some (Normal (markdown, conversations)) /\
    exists fetched,
      fetchLoop PipelineSamples.pages 4000000 3 0 None [] = Some (Normal fetched) /\
      flatten conversations = sort fetched /\
      forall conv, In conv conversations ->
        ExportArchive.messages conv <> [] /\
        (forall m, In m (ExportArchive.messages conv) ->
                   (4000000 <= timestamp m)%Z) /\
        tags conv =
          JsSet.of_list (map (fun m => classifyMessage (content m))
                             (ExportArchive.messages conv)) /\
        participants conv =
          JsSet.of_list (map author (ExportArchive.messages conv)).
Proof.
  assert ({ r | exportChannelToMarkdown PipelineSamples.pages 4000000
                   PipelineSamples.stamp "2026-01-05T09:00:00.000Z" "general" 3 =
                 Some (Normal r) }) as [[markdown conversations] H]
    by (eexists; vm_compute; reflexivity).
  exists markdown, conversations. split; [exact H|].
  exact (@export_conversations_recent_and_tagged _ _ _ _ _ _ _ _ H).
Defined.

(** X12. When [exportChannelToMarkdown] returns, the markdown shows the
    channel name, the title of every conversation, and, for every collected
    message, its text, its author, its timestamp as rendered, and each of
    its attachment urls. *)
Theorem export_markdown_shows_every_message :
  forall (fetch : nat -> option string -> completion (list ChannelMessage))
         (dateLimit : Z) (toISOString : Z -> string)
         (exportDate channelName : string) (fuel : nat)
         (markdown : string) (conversations : list Conversation),
    exportChannelToMarkdown fetch dateLimit toISOString exportDate channelName fuel =
      Some (Normal (markdown, conversations)) ->
    includes markdown channelName = true /\
    (forall conv, In conv conversations ->
                  includes markdown (title conv) = true) /\
    exists fetched,
      fetchLoop fetch dateLimit fuel 0 None [] = Some (Normal fetched) /\
      forall m, In m fetched ->
        includes markdown (content m) = true /\
        includes markdown (author m) = true /\
        includes markdown (toISOString (timestamp m)) = true /\
        forall url, In url (attachments m) -> includes markdown url = true.
Proof.
  intros fetch dateLimit toISOString exportDate channelName fuel markdown
         conversations H.
  apply export_unfolded in H as (msgs & Hf & Hsteps & ->).
  pose proof (renderConversation_grows toISOString) as Hgrow.
  split; [|split].
  - apply (@fold_includes_kept Conversation (renderConversation toISOString)
             channelName Hgrow).
    unfold markdownHeader. apply includes_appended.
  - intros conv Hin.
    eapply (@fold_includes_In Conversation (renderConversation toISOString) _ conv
              Hgrow); [|exact Hin].
    intros md. apply renderConversation_includes.
  - exists msgs. split; [exact Hf|]. intros m Hm.
    assert (exists conv, In conv conversations /\ In m (messages conv))
      as (conv & Hin & Hmc).
    { pose proof (Steps_flatten Hsteps) as Hflat. simpl in Hflat.
      apply (Permutation_in _ (sort_perm msgs)) in Hm. rewrite <- Hflat in Hm.
      unfold flatten in Hm. apply in_concat in Hm as (l & Hl & Hml).
      apply in_map_iff in Hl as (conv & <- & Hin). now exists conv. }
    pose proof (fun md =>
                  proj2 (renderConversation_includes toISOString md conv) m Hmc)
      as Hconv.
    repeat split; [| | |intros url Hurl];
      (eapply (@fold_includes_In Conversation (renderConversation toISOString) _ conv
                 Hgrow); [|exact Hin]);
      intros md; destruct (Hconv md) as (H1 & H2 & H3 & H4);
      first [exact H1 | exact H2 | exact H3 | now apply H4].
Qed.

Lemma export_markdown_shows_every_message_witness :
  exists markdown conversations,
    exportChannelToMarkdown PipelineSamples.pages 4000000 PipelineSamples.stamp
                            "2026-01-05T09:00:00.000Z" "general" 3 =
      Some (Normal (markdown, conversations)) /\
    includes markdown "general" = true /\
    (forall conv, In conv conversations ->
                  includes markdown (title conv) = true) /\
    exists fetched,
      fetchLoop PipelineSamples.pages 4000000 3 0 None [] = Some (Normal fetched) /\
      forall m, In m fetched ->
        includes markdown (content m) = true /\
        includes markdown (author m) = true /\
        includes markdown (PipelineSamples.stamp (timestamp m)) = true /\
        forall url, In url (attachments m) -> includes markdown url = true.
Proof.
  assert ({ r | exportChannelToMarkdown PipelineSamples.pages 4000000
                   PipelineSamples.stamp "2026-01-05T09:00:00.000Z" "general" 3 =
                 Some (Normal r) }) as [[markdown conversations] H]
    by (eexists; vm_compute; reflexivity).
  exists markdown, conversations. split; [exact H|].
  exact (@export_markdown_shows_every_message _ _ _ _ _ _ _ _ H).
Defined.

Section Clear.

Variable fetch : nat -> option string -> completion (list ChannelMessage).
Variable dateLimit : Z.
Variable deleteResolves : ChannelMessage -> bool.

(** What holds of the state of [clearOldMessages] all along. *)
Lemma clearPage_invariant (P : ChannelMessage -> Prop) page :
  (forall msg, In msg page ->
               (createdAt msg < dateLimit)%Z -> pinned msg = false ->
               deleteResolves msg = true -> P msg) ->
  forall fetched state,
    incl fetched page ->
    Forall P (fst state) -> snd state = List.length (fst state) ->
    Forall P (fst (clearPage dateLimit deleteResolves fetched state)) /\
    snd (clearPage dateLimit deleteResolves fetched state) =
      List.length (fst (clearPage dateLimit deleteResolves fetched state)).
Proof.
  intros HP. induction fetched as [|msg rest IH]; intros state Hincl Hall Hcount; simpl.
  - split; assumption.
  - apply IH; [intros x Hx; apply Hincl; now right | |];
      destruct (createdAt msg <? dateLimit)%Z eqn:Eold; simpl; try assumption;
      destruct (pinned msg) eqn:Epin; simpl; try assumption;
      destruct (deleteResolves msg) eqn:Edel; simpl; try assumption.
    + apply Forall_app. split; [exact Hall|]. constructor; [|constructor].
      apply HP; try assumption; [apply Hincl; now left | lia].
    + rewrite length_app. simpl. lia.
Qed.

End Clear.

(** X13. Whenever the run of [clearOldMessages] is stopped, and however it
    ends, every message it has deleted came from a fetched page, is older
    than the date limit and is not pinned; and when the run returns, the
    number it returns is the number of messages deleted. *)
Theorem clear_deletes_only_old_unpinned :
  forall (fetch : nat -> option string -> completion (list ChannelMessage))
         (dateLimit : Z) (deleteResolves : ChannelMessage -> bool) (fuel : nat),
    (forall msg,
        In msg (fst (clearOldMessages fetch dateLimit deleteResolves fuel)) ->
        (createdAt msg < dateLimit)%Z /\ pinned msg = false /\
        deleteResolves msg = true /\
        exists call cursor page, fetch call cursor = Normal page /\ In msg page) /\
    (forall n,
        snd (clearOldMessages fetch dateLimit deleteResolves fuel) = Some (Normal n) ->
        n = List.length (fst (clearOldMessages fetch dateLimit deleteResolves fuel))).
Proof.
  intros fetch dateLimit deleteResolves fuel. unfold clearOldMessages.
  set (P := fun msg =>
              (createdAt msg < dateLimit)%Z /\ pinned msg = false /\
              deleteResolves msg = true /\
              exists call cursor page, fetch call cursor = Normal page /\ In msg page).
  assert (forall fuel call lastId state,
             Forall P (fst state) -> snd state = List.length (fst state) ->
             Forall P (fst (clearLoop fetch dateLimit deleteResolves fuel call lastId state)) /\
             forall n,
               snd (clearLoop fetch dateLimit deleteResolves fuel call lastId state) =
                 Some (Normal n) ->
               n = List.length
                     (fst (clearLoop fetch dateLimit deleteResolves fuel call lastId state)))
    as Hloop.
  { clear fuel. induction fuel as [|fuel IH]; intros call lastId state Hall Hcount; simpl.
    - split; [exact Hall | discriminate].
    - destruct (fetch call lastId) as [page|e] eqn:Hpage; simpl;
        [|split; [exact Hall | discriminate]].
      destruct (lastOf page) as [lastFetched|]; simpl.
      + destruct (@clearPage_invariant dateLimit deleteResolves P page) with
          (fetched := page) (state := state) as [Hall' Hcount'];
          try assumption; [|apply incl_refl|now apply IH].
        intros msg Hin Hold Hpin Hdel. unfold P. repeat split; try assumption.
        now exists call, lastId, page.
      + split; [exact Hall|]. now intros n [= <-]. }
  destruct (Hloop fuel 0 None ([], 0)) as [Hall Hn]; [constructor | reflexivity|].
  split; [|exact Hn].
  intros msg Hin. rewrite Forall_forall in Hall. exact (Hall msg Hin).
Qed.

End PipelineFacts.

(* ================================================================== *)
(** * Facts about the calendar sync *)

Module CalendarFacts.

Import CalendarSync.

Local Open Scope Z_scope.

Lemma toDouble_cases z :
  (Z.abs z < 9007199254740992 /\ toDouble z = z) \/
  (9007199254740992 <= Z.abs z /\
   (toDouble z = z \/ toDouble z = z + 1 \/ toDouble z = z - 1)).
Proof.
  unfold toDouble. destruct (Z.abs z <? 9007199254740992) eqn:E.
  - left. apply Z.ltb_lt in E. split; [exact E | reflexivity].
  - right. apply Z.ltb_ge in E. split; [exact E|].
    destruct (Z.even z); [now left|].
    destruct (Z.rem (z + 1) 4 =? 0); auto.
Qed.

Lemma toDouble_exact z : Z.abs z < 9007199254740992 -> toDouble z = z.
Proof. intros H. destruct (toDouble_cases z) as [[_ E] | [E _]]; [exact E | lia]. Qed.

Lemma hours_positive_iff d : (0 <? hoursOf d) = (3600000 <=? d).
Proof.
  unfold hoursOf. change (1000 * 60 * 60) with 3600000.
  destruct (3600000 <=? d) eqn:E.
  - apply Z.ltb_lt. apply Z.leb_le in E.
    apply Z.div_str_pos. lia.
  - apply Z.ltb_ge. apply Z.leb_gt in E.
    destruct (Z_lt_le_dec d 0) as [Hneg | Hpos].
    + assert (d / 3600000 < 0) by (apply Z.div_lt_upper_bound; lia). lia.
    + rewrite Z.div_small; lia.
Qed.

Lemma minutes_nonneg d :
  0 <= d -> minutesOf d = (d mod 3600000) / 60000.
Proof.
  intros H. unfold minutesOf. change (1000 * 60 * 60) with 3600000.
  change (1000 * 60) with 60000. now rewrite Z.rem_mod_nonneg by lia.
Qed.

Lemma whole_minutes d :
  0 <= d ->
  0 <= (d mod 3600000) / 60000 <= 59 /\
  (d / 3600000) * 60 + (d mod 3600000) / 60000 = d / 60000.
Proof.
  intros H.
  pose proof (Z.mod_pos_bound d 3600000 ltac:(lia)) as Hr.
  pose proof (Z.div_mod d 3600000 ltac:(lia)) as Hd.
  split.
  - split; [apply Z.div_pos; lia|].
    assert ((d mod 3600000) / 60000 < 60) by (apply Z.div_lt_upper_bound; lia). lia.
  - rewrite Hd at 3.
    replace (3600000 * (d / 3600000) + d mod 3600000)
      with (d mod 3600000 + (d / 3600000 * 60) * 60000) by lia.
    rewrite Z.div_add by lia. lia.
Qed.

(** X14. For an event whose end is not before its start and less than 2^52
    milliseconds after it, with both dates valid, [calculateDuration] shows
    the whole minutes of the duration: as ["Hh Mm"] with M between 0 and 59
    and 60 H + M the number of whole minutes when the duration is an hour
    or more, and as ["Mm"] with M that number when it is less. *)
Theorem duration_shows_whole_minutes :
  forall (parseDate : string -> option Z) (startTime endTime : EventTime)
         (s e : Z),
    dateOf parseDate startTime = Some s ->
    dateOf parseDate endTime = Some e ->
    s <= e ->
    e - s < 4503599627370496 ->
    calculateDuration parseDate startTime endTime =
      (if 3600000 <=? e - s
       then (showNumber (Some ((e - s) / 3600000)) ++ "h " ++
             showNumber (Some (((e - s) mod 3600000) / 60000)) ++ "m")%string
       else (showNumber (Some ((e - s) / 60000)) ++ "m")%string) /\
    0 <= ((e - s) mod 3600000) / 60000 <= 59 /\
    ((e - s) / 3600000) * 60 + ((e - s) mod 3600000) / 60000 = (e - s) / 60000.
Proof.
  intros parseDate startTime endTime s e Hs He Hle Hrange.
  destruct (@whole_minutes (e - s)) as [Hm Hsum]; [lia|].
  split; [|split; assumption].
  unfold calculateDuration, durationMs. rewrite He, Hs.
  rewrite toDouble_exact by lia.
  rewrite hours_positive_iff, minutes_nonneg by lia.
  destruct (3600000 <=? e - s) eqn:E; [reflexivity|].
  apply Z.leb_gt in E.
  rewrite Z.mod_small by lia. reflexivity.
Qed.

Lemma duration_shows_whole_minutes_witness :
  calculateDuration CalendarSamples.parseMillis
                    (start CalendarSamples.standup) (end_ CalendarSamples.standup) =
    "1h 30m"%string /\
  0 <= ((8800000 - 3400000) mod 3600000) / 60000 <= 59 /\
  ((8800000 - 3400000) / 3600000) * 60 + ((8800000 - 3400000) mod 3600000) / 60000 =
    (8800000 - 3400000) / 60000.
Proof.
  exact (@duration_shows_whole_minutes CalendarSamples.parseMillis
           (start CalendarSamples.standup) (end_ CalendarSamples.standup)
           3400000 8800000 eq_refl eq_refl ltac:(discriminate) eq_refl).
Defined.

(** X15. [calculateDuration] at its edges: when a date is missing or
    invalid the result is ["NaNm"]; when the end is before the start no
    hours are shown, only a number of minutes between -60 and 0, the
    remainder of the duration after whole hours, so a duration of a whole
    number of hours backwards shows ["0m"]. *)
Theorem duration_invalid_or_backwards :
  forall (parseDate : string -> option Z) (startTime endTime : EventTime),
    (durationMs parseDate startTime endTime = None ->
     calculateDuration parseDate startTime endTime = "NaNm"%string) /\
    (forall d,
        durationMs parseDate startTime endTime = Some d -> d < 0 ->
        calculateDuration parseDate startTime endTime =
          (showNumber (Some (minutesOf d)) ++ "m")%string /\
        -60 <= minutesOf d <= 0 /\
        (Z.rem d 3600000 = 0 ->
         calculateDuration parseDate startTime endTime = "0m"%string)).
Proof.
  intros parseDate startTime endTime. split.
  - intros H. unfold calculateDuration. now rewrite H.
  - intros d H Hneg. unfold calculateDuration. rewrite H.
    rewrite hours_positive_iff.
    assert ((3600000 <=? d) = false) as -> by (apply Z.leb_gt; lia).
    split; [reflexivity|].
    unfold minutesOf. change (1000 * 60 * 60) with 3600000.
    change (1000 * 60) with 60000.
    pose proof (Z.rem_bound_pos_neg d 3600000 ltac:(lia) ltac:(lia)) as Hr.
    split.
    + split.
      * apply Z.div_le_lower_bound; lia.
      * assert (Z.rem d 3600000 / 60000 < 1)
          by (apply Z.div_lt_upper_bound; lia). lia.
    + intros H0. rewrite H0. reflexivity.
Qed.

Lemma duration_invalid_or_backwards_witness :
  calculateDuration CalendarSamples.parseMillis
                    (start CalendarSamples.backwards)
                    (end_ CalendarSamples.backwards) = "-30m"%string /\
  -60 <= minutesOf (-5400000) <= 0.
Proof.
  destruct (proj2 (duration_invalid_or_backwards CalendarSamples.parseMillis
                     (start CalendarSamples.backwards)
                     (end_ CalendarSamples.backwards))
                  (-5400000) eq_refl eq_refl) as (H1 & H2 & _).
  split; [exact H1 | exact H2].
Defined.

Section Notify.

Variable parseDate : string -> option Z.
Variable toLocaleString : option Z -> string.
Variable toISOString : Z -> string.

Lemma notify_color now event action :
  color (notifyDiscord parseDate toLocaleString toISOString now event action) =
    if urgent (option_map (fun t => toDouble (t - now))
                          (dateOf parseDate (start event)))
    then 0xFF0000
    else if String.eqb action "created" then 0x00FF00 else 0x0077FF.
Proof. reflexivity. Qed.

Lemma notify_content now event action :
  content (notifyDiscord parseDate toLocaleString toISOString now event action) =
    if urgent (option_map (fun t => toDouble (t - now))
                          (dateOf parseDate (start event)))
    then Some ("@here Reminder: Event starting in " ++
               showNumber (option_map roundedHours
                             (option_map (fun t => toDouble (t - now))
                                         (dateOf parseDate (start event)))) ++
               " hours!")%string
    else None.
Proof. reflexivity. Qed.


Lemma roundedHours_bounds ms :
  0 < ms < 24 * 3600000 -> 0 <= roundedHours ms <= 24.
Proof.
  intros H. unfold roundedHours. split.
  - apply Z.div_pos; lia.
  - assert ((ms + 1800000) / 3600000 < 25)
      by (apply Z.div_lt_upper_bound; lia). lia.
Qed.

End Notify.

(** X16. For an event with a valid start, the notification is urgent
    exactly when the start is later than the clock and less than 24 hours
    away: it is then red and its content announces the start in the nearest
    whole number of hours, between 0 and 24; otherwise it has no content and
    is green for the action ["created"] and blue for any other. *)
Theorem notify_urgent_within_24_hours :
  forall (parseDate : string -> option Z) (toLocaleString : option Z -> string)
         (toISOString : Z -> string) (now : Z) (event : CalendarEvent)
         (action : string) (t : Z),
    dateOf parseDate (start event) = Some t ->
    (0 < t - now < 86400000 ->
     color (notifyDiscord parseDate toLocaleString toISOString now event action) =
       0xFF0000 /\
     content (notifyDiscord parseDate toLocaleString toISOString now event action) =
       Some ("@here Reminder: Event starting in " ++
             showNumber (Some (roundedHours (t - now))) ++ " hours!")%string /\
     0 <= roundedHours (t - now) <= 24) /\
    (t - now <= 0 \/ 86400000 <= t - now ->
     content (notifyDiscord parseDate toLocaleString toISOString now event action) =
       None /\
     color (notifyDiscord parseDate toLocaleString toISOString now event action) =
       if String.eqb action "created" then 0x00FF00 else 0x0077FF).
Proof.
  intros parseDate toLocaleString toISOString now event action t Ht.
  rewrite notify_color, notify_content, Ht. cbn [option_map urgent].
  change (24 * (1000 * 60 * 60)) with 86400000.
  split.
  - intros H. rewrite toDouble_exact by lia.
    assert ((0 <? t - now) && (t - now <? 86400000) = true) as ->
      by (apply andb_true_iff; split; apply Z.ltb_lt; lia).
    repeat split; try apply roundedHours_bounds; lia.
  - intros H.
    assert ((0 <? toDouble (t - now)) && (toDouble (t - now) <? 86400000) = false)
      as ->.
    { apply andb_false_iff.
      destruct (toDouble_cases (t - now)) as [[_ E] | [Hfar E]].
      - rewrite E. destruct H; [left | right]; apply Z.ltb_ge; lia.
      - destruct (Z_lt_le_dec (t - now) 0) as [Hneg | Hpos];
          [left | right]; apply Z.ltb_ge; lia. }
    split; reflexivity.
Qed.

Lemma notify_urgent_within_24_hours_witness :
  color (notifyDiscord CalendarSamples.parseMillis CalendarSamples.showDate
                       CalendarSamples.showInstant 1000000
                       CalendarSamples.standup "created") = 0xFF0000 /\
  content (notifyDiscord CalendarSamples.parseMillis CalendarSamples.showDate
                         CalendarSamples.showInstant 1000000
                         CalendarSamples.standup "created") =
    Some "@here Reminder: Event starting in 1 hours!"%string /\
  0 <= roundedHours (3400000 - 1000000) <= 24.
Proof.
  exact (proj1 (@notify_urgent_within_24_hours
                  CalendarSamples.parseMillis CalendarSamples.showDate
                  CalendarSamples.showInstant 1000000 CalendarSamples.standup
                  "created" 3400000 eq_refl)
               (conj eq_refl eq_refl)).
Defined.


(** X18. A reminder that [syncCalendar] selected is urgent: for an event
    that starts within the hour after the clock reading used by the filter,
    notified with the action ["reminder"] at a later reading still before
    the start, the notification is titled as an update, is red, and
    announces the start in 0 or 1 hours. *)
Theorem reminder_is_urgent :
  forall (parseDate : string -> option Z) (toLocaleString : option Z -> string)
         (toISOString : Z -> string) (now later : Z) (event : CalendarEvent)
         (t : Z),
    upcoming parseDate now event = true ->
    dateOf parseDate (start event) = Some t ->
    now <= later < t ->
    title (notifyDiscord parseDate toLocaleString toISOString later event
                         "reminder") = "Calendar Event Updated"%string /\
    color (notifyDiscord parseDate toLocaleString toISOString later event
                         "reminder") = 0xFF0000 /\
    exists n,
      0 <= n <= 1 /\
      content (notifyDiscord parseDate toLocaleString toISOString later event
                             "reminder") =
        Some ("@here Reminder: Event starting in " ++
              showNumber (Some n) ++ " hours!")%string.
Proof.
  intros parseDate toLocaleString toISOString now later event t Hup Ht Hlater.
  unfold upcoming in Hup. rewrite Ht in Hup.
  change (1000 * 60 * 60) with 3600000 in Hup.
  apply andb_true_iff in Hup as [H0 H1].
  apply Z.ltb_lt in H0. apply Z.leb_le in H1.
  assert (0 < t - now <= 3600000) as Hnear
    by (destruct (toDouble_cases (t - now)) as [[_ E] | [Hfar E]]; lia).
  clear H0 H1. destruct Hnear as [H0 H1].
  split; [reflexivity|].
  rewrite notify_color, notify_content, Ht. cbn [option_map urgent].
  rewrite toDouble_exact by lia.
  change (24 * (1000 * 60 * 60)) with 86400000.
  assert ((0 <? t - later) && (t - later <? 86400000) = true) as ->
    by (apply andb_true_iff; split; apply Z.ltb_lt; lia).
  split; [reflexivity|].
  exists (roundedHours (t - later)). split; [|reflexivity].
  unfold roundedHours. split.
  - apply Z.div_pos; lia.
  - assert ((t - later + 1800000) / 3600000 < 2)
      by (apply Z.div_lt_upper_bound; lia). lia.
Qed.

Lemma reminder_is_urgent_witness :
  title (notifyDiscord CalendarSamples.parseMillis CalendarSamples.showDate
                       CalendarSamples.showInstant 1000500
                       CalendarSamples.standup "reminder") =
    "Calendar Event Updated"%string /\
  color (notifyDiscord CalendarSamples.parseMillis CalendarSamples.showDate
                       CalendarSamples.showInstant 1000500
                       CalendarSamples.standup "reminder") = 0xFF0000 /\
  exists n,
    0 <= n <= 1 /\
    content (notifyDiscord CalendarSamples.parseMillis CalendarSamples.showDate
                           CalendarSamples.showInstant 1000500
                           CalendarSamples.standup "reminder") =
      Some ("@here Reminder: Event starting in " ++
            showNumber (Some n) ++ " hours!")%string.
Proof.
  apply (@reminder_is_urgent CalendarSamples.parseMillis CalendarSamples.showDate
           CalendarSamples.showInstant 1000000 1000500 CalendarSamples.standup
           3400000).
  - reflexivity.
  - reflexivity.
  - split; [discriminate | reflexivity].
Defined.

Section Runs.

Variable parseDate : string -> option Z.
Variable listEvents : completion (list CalendarEvent).
Variable syncEventToNotion : CalendarEvent -> completion string.
Variable notifyResolves : CalendarEvent -> string -> bool.

Lemma continues_refl state : continues state state.
Proof.
  split; [auto|]. exists []. rewrite app_nil_r.
  repeat split; [constructor | destruct H | destruct H].
Qed.

Lemma continues_deliver earlier state call :
  continues earlier state ->
  JsSet.has (syncedEvents state) (keyOf call) = false ->
  continues earlier
    {| syncedEvents := JsSet.add (syncedEvents state) (keyOf call);
       delivered := delivered state ++ [call] |}.
Proof.
  intros [Hkeep (new & Hnew & Hnodup & Hkeys)] Hhas.
  assert (~ In (keyOf call) (syncedEvents state)) as Hfresh
    by (rewrite <- SetFacts.has_In, Hhas; discriminate).
  split; cbn [syncedEvents delivered].
  - intros key Hk. apply SetFacts.add_In. left. now apply Hkeep.
  - exists (new ++ [call])%list. split; [now rewrite Hnew, app_assoc|]. split.
    + rewrite map_app. apply NoDup_app; [exact Hnodup | repeat constructor; auto|].
      intros key Hk [<- | []]. apply Hfresh.
      apply in_map_iff in Hk as (c & <- & Hc). now apply Hkeys.
    + intros c Hc. apply in_app_or in Hc as [Hc | [<- | []]].
      * destruct (Hkeys c Hc) as [H1 H2]. split; [exact H1|].
        apply SetFacts.add_In. now left.
      * split; [|apply SetFacts.add_In; now right].
        intros Hin. apply Hfresh. now apply Hkeep.
Qed.

Lemma syncOne_continues earlier state event :
  continues earlier state ->
  continues earlier (syncOne syncEventToNotion notifyResolves state event).
Proof.
  intros H. unfold syncOne.
  destruct (syncEventToNotion event) as [action|e]; [|exact H].
  destruct (String.eqb action "created"); simpl; [|exact H].
  destruct (JsSet.has (syncedEvents state) (id event)) eqn:Hhas; simpl; [exact H|].
  destruct (notifyResolves event "created"); [|exact H].
  exact (continues_deliver (event, "created"%string) H Hhas).
Qed.

Lemma syncAll_continues earlier events : forall state,
  continues earlier state ->
  continues earlier (fold_left (syncOne syncEventToNotion notifyResolves) events state).
Proof.
  induction events as [|event rest IH]; intros state H; simpl; [exact H|].
  apply IH, syncOne_continues, H.
Qed.

Lemma remindAll_continues earlier events : forall state,
  continues earlier state ->
  continues earlier (fst (remindAll notifyResolves state events)).
Proof.
  induction events as [|event rest IH]; intros state H; simpl; [exact H|].
  destruct (JsSet.has (syncedEvents state) (reminderKey event)) eqn:Hhas;
    [now apply IH|].
  destruct (notifyResolves event "reminder"); [|exact H].
  apply IH.
  exact (continues_deliver (event, "reminder"%string) H Hhas).
Qed.

Lemma syncCalendar_continues now state :
  continues state
    (fst (syncCalendar parseDate listEvents syncEventToNotion notifyResolves now state)).
Proof.
  unfold syncCalendar. destruct listEvents as [events|e]; [|apply continues_refl].
  pose proof (@remindAll_continues state (filter (upcoming parseDate now) events) _
                (@syncAll_continues state events _ (continues_refl state))) as H.
  destruct (remindAll notifyResolves
              (fold_left (syncOne syncEventToNotion notifyResolves) events state)
              (filter (upcoming parseDate now) events)) as [state2 [u|e]]; exact H.
Qed.

End Runs.

Lemma continues_trans s0 s1 s2 :
  continues s0 s1 -> continues s1 s2 -> continues s0 s2.
Proof.
  intros [K1 (new1 & D1 & N1 & P1)] [K2 (new2 & D2 & N2 & P2)].
  split; [auto|]. exists (new1 ++ new2)%list.
  split; [now rewrite D2, D1, app_assoc|]. split.
  - rewrite map_app. apply NoDup_app; [assumption..|].
    intros key Hk1 Hk2.
    apply in_map_iff in Hk1 as (c1 & <- & Hc1).
    apply in_map_iff in Hk2 as (c2 & E & Hc2).
    destruct (P2 c2 Hc2) as [Hfresh _]. apply Hfresh. rewrite E.
    now apply P1.
  - intros c Hc. apply in_app_or in Hc as [Hc | Hc].
    + destruct (P1 c Hc). split; auto.
    + destruct (P2 c Hc) as [Hfresh Hin]. split; [|exact Hin].
      intros H0. apply Hfresh. now apply K1.
Qed.

(** X19. One run of [syncCalendar], from any state and however it ends,
    removes nothing from [syncedEvents], and the notifications it delivers
    stand for pairwise different entries of the set, none of which was in
    the set before the run and all of which are in it afterwards: a
    notification is delivered only for an entry not yet recorded. *)
Theorem sync_delivers_only_unrecorded :
  forall (parseDate : string -> option Z)
         (listEvents : completion (list CalendarEvent))
         (syncEventToNotion : CalendarEvent -> completion string)
         (notifyResolves : CalendarEvent -> string -> bool)
         (now : Z) (state : SyncState),
    (forall key,
        In key (syncedEvents state) ->
        In key (syncedEvents
                  (fst (syncCalendar parseDate listEvents syncEventToNotion
                                     notifyResolves now state)))) /\
    exists new,
      delivered (fst (syncCalendar parseDate listEvents syncEventToNotion
                                   notifyResolves now state)) =
        (delivered state ++ new)%list /\
      NoDup (map keyOf new) /\
      forall call, In call new ->
        ~ In (keyOf call) (syncedEvents state) /\
        In (keyOf call)
           (syncedEvents
              (fst (syncCalendar parseDate listEvents syncEventToNotion
                                 notifyResolves now state))).
Proof.
  intros. apply syncCalendar_continues.
Qed.

(** X20. Over two runs of [syncCalendar] in one process, whatever the
    calendar, Notion and Discord answer in each, no event is reminded twice
    and no event is announced as created twice: the notifications delivered
    by the two runs together stand for pairwise different entries of
    [syncedEvents]. *)
Theorem sync_no_second_notification :
  forall (parseDate1 parseDate2 : string -> option Z)
         (listEvents1 listEvents2 : completion (list CalendarEvent))
         (syncEventToNotion1 syncEventToNotion2 : CalendarEvent -> completion string)
         (notifyResolves1 notifyResolves2 : CalendarEvent -> string -> bool)
         (now1 now2 : Z) (state : SyncState),
    exists new,
      delivered
        (fst (syncCalendar parseDate2 listEvents2 syncEventToNotion2 notifyResolves2
                now2
                (fst (syncCalendar parseDate1 listEvents1 syncEventToNotion1
                                   notifyResolves1 now1 state)))) =
        (delivered state ++ new)%list /\
      NoDup (map keyOf new) /\
      (forall e1 e2 before between after,
          new = (before ++ (e1, "reminder"%string) :: between ++
                 (e2, "reminder"%string) :: after)%list ->
          id e1 <> id e2) /\
      (forall e1 e2 before between after,
          new = (before ++ (e1, "created"%string) :: between ++
                 (e2, "created"%string) :: after)%list ->
          id e1 <> id e2).
Proof.
  intros.
  pose proof (continues_trans
                (syncCalendar_continues parseDate1 listEvents1 syncEventToNotion1
                                        notifyResolves1 now1 state)
                (syncCalendar_continues parseDate2 listEvents2 syncEventToNotion2
                                        notifyResolves2 now2 _))
    as [_ (new & Hd & Hnodup & _)].
  exists new. split; [exact Hd|]. split; [exact Hnodup|].
  split; intros e1 e2 before between after -> Heq;
    rewrite map_app in Hnodup; apply NoDup_app_remove_l in Hnodup;
    cbn [map] in Hnodup; inversion Hnodup as [|? ? Hnotin _]; subst;
    apply Hnotin; rewrite map_app; apply in_or_app; right; left;
    unfold keyOf, reminderKey; cbn [fst snd String.eqb]; simpl; now rewrite Heq.
Qed.

End CalendarFacts.

(* ================================================================== *)
(** * Facts about the ChatGPT export script *)

Module ChatGptFacts.

Import ChatGptExport.

Lemma tagLoop_result keys combined :
  tagLoop keys combined = "Uncategorized"%string /\
  (forall tag, In tag keys ->
               existsb (like combined) (keywordsOf TagRules tag) = false) \/
  In (tagLoop keys combined) keys /\
  existsb (like combined) (keywordsOf TagRules (tagLoop keys combined)) = true.
Proof.
  induction keys as [|tag rest IH]; cbn [tagLoop].
  - left. split; [reflexivity | intros ? []].
  - destruct (existsb (like combined) (keywordsOf TagRules tag)) eqn:E.
    + right. split; [now left | exact E].
    + destruct IH as [[H1 H2] | [H1 H2]].
      * left. split; [exact H1|]. intros t [<- | Ht]; auto.
      * right. split; [now right | exact H2].
Qed.

Lemma tagLoop_unique keys combined tag :
  In tag keys ->
  existsb (like combined) (keywordsOf TagRules tag) = true ->
  (forall other, In other keys -> other <> tag ->
                 existsb (like combined) (keywordsOf TagRules other) = false) ->
  tagLoop keys combined = tag.
Proof.
  induction keys as [|k rest IH]; intros Hin Hm Hothers; [destruct Hin|].
  cbn [tagLoop]. destruct (String.eqb_spec k tag) as [-> | Hne].
  - now rewrite Hm.
  - rewrite (Hothers k (or_introl eq_refl) Hne).
    destruct Hin as [-> | Hin]; [contradiction|].
    apply IH; auto. intros other Ho. apply Hothers. now right.
Qed.

Lemma keys_not_sentinel tag :
  In tag (map fst TagRules) -> tag <> "Uncategorized"%string.
Proof.
  simpl. intros H.
  repeat (destruct H as [<- | H]; [discriminate|]). destruct H.
Qed.

(** X21. [Get-ConversationTag] does not depend on the order in which the
    hashtable's keys are enumerated in two cases: it answers
    ["Uncategorized"] exactly when no keyword of any rule occurs in the
    lower-cased title and content, in whatever order; and when the rules
    with an occurring keyword all carry one tag, it answers that tag, in
    whatever order. In every case the tag it answers, if not
    ["Uncategorized"], is a key of the table one of whose keywords occurs. *)
Theorem conversation_tag_order_independent :
  forall (keys : list string) (title content : string),
    Permutation keys (map fst TagRules) ->
    (getConversationTag keys title content = "Uncategorized"%string <->
     (forall tag, In tag (map fst TagRules) ->
        existsb (like (toLowerCase (title ++ " " ++ content)))
                (keywordsOf TagRules tag) = false)) /\
    (getConversationTag keys title content <> "Uncategorized"%string ->
     In (getConversationTag keys title content) (map fst TagRules) /\
     existsb (like (toLowerCase (title ++ " " ++ content)))
             (keywordsOf TagRules (getConversationTag keys title content)) = true) /\
    (forall tag,
        In tag (map fst TagRules) ->
        existsb (like (toLowerCase (title ++ " " ++ content)))
                (keywordsOf TagRules tag) = true ->
        (forall other, In other (map fst TagRules) -> other <> tag ->
           existsb (like (toLowerCase (title ++ " " ++ content)))
                   (keywordsOf TagRules other) = false) ->
        getConversationTag keys title content = tag).
Proof.
  intros keys title content Hperm. unfold getConversationTag.
  set (combined := toLowerCase (title ++ " " ++ content)).
  assert (forall tag, In tag keys <-> In tag (map fst TagRules)) as Hin.
  { intros tag. split; apply Permutation_in;
      [exact Hperm | now apply Permutation_sym]. }
  destruct (tagLoop_result keys combined) as [[Hu Hnone] | [Hk Hm]].
  - split; [|split].
    + rewrite Hu. split; [|reflexivity]. intros _ tag Ht. apply Hnone, Hin, Ht.
    + intros Hne. contradiction.
    + intros tag Ht Hmatch _. rewrite Hnone in Hmatch by now apply Hin.
      discriminate.
  - split; [|split].
    + split.
      * intros Hu. apply Hin in Hk. rewrite Hu in Hk.
        now apply keys_not_sentinel in Hk.
      * intros Hnone. rewrite Hnone in Hm by now apply Hin. discriminate.
    + intros _. split; [now apply Hin | exact Hm].
    + intros tag Ht Hmatch Hothers. apply tagLoop_unique; [now apply Hin | exact Hmatch|].
      intros other Ho. apply Hothers. now apply Hin.
Qed.

Lemma conversation_tag_order_independent_witness :
  getConversationTag (rev (map fst TagRules)) "Uploads" "sent with ShareX" =
    "Tools"%string.
Proof.
  refine (proj2 (proj2 (@conversation_tag_order_independent
                          (rev (map fst TagRules)) "Uploads" "sent with ShareX"
                          (Permutation_sym (Permutation_rev _))))
                "Tools"%string _ eq_refl _).
  - simpl. tauto.
  - simpl. intros other H Hne.
    repeat (destruct H as [<- | H]; [first [reflexivity | contradiction]|]).
    destruct H.
Defined.

Lemma safeTitle_length title : String.length (safeTitle title) = String.length title.
Proof. induction title as [|c rest IH]; simpl; [reflexivity | now rewrite IH]. Qed.

Lemma safeTitle_units title c :
  In c (list_ascii_of_string (safeTitle title)) -> forbidden c = false.
Proof.
  induction title as [|d rest IH]; simpl; [tauto|].
  intros [<- | H]; [|auto].
  destruct (forbidden d) eqn:E; [reflexivity | exact E].
Qed.

Lemma safeTitle_clean title :
  (forall c, In c (list_ascii_of_string title) -> forbidden c = false) ->
  safeTitle title = title.
Proof.
  induction title as [|d rest IH]; simpl; intros H; [reflexivity|].
  rewrite (H d) by now left. rewrite IH; [reflexivity|]. intros c Hc. apply H. now right.
Qed.

Lemma substring0_units n s c :
  In c (list_ascii_of_string (substring0 n s)) -> In c (list_ascii_of_string s).
Proof.
  revert s. induction n as [|n IH]; intros s; simpl; [tauto|].
  destruct s as [|d s]; simpl; [tauto|]. intros [<- | H]; [now left | right; auto].
Qed.

Lemma substring0_all n s : String.length s <= n -> substring0 n s = s.
Proof.
  revert s. induction n as [|n IH]; intros s H; destruct s as [|d s]; simpl in *;
    try reflexivity; [lia|]. rewrite IH; [reflexivity | lia].
Qed.

(** X22. The part of an export file's name taken from the conversation
    title contains none of the nine characters the script replaces, has the
    length of the title or 50 when the title is longer, and is the title
    itself when the title has none of those characters and at most 50
    code units. *)
Theorem file_name_title_part_is_safe :
  forall title : string,
    (forall c, In c (list_ascii_of_string (titlePart title)) ->
               forbidden c = false) /\
    String.length (titlePart title) = Nat.min (String.length title) 50 /\
    ((forall c, In c (list_ascii_of_string title) -> forbidden c = false) ->
     String.length title <= 50 ->
     titlePart title = title).
Proof.
  intros title. unfold titlePart. rewrite safeTitle_length. split; [|split].
  - intros c H. apply substring0_units in H. now apply safeTitle_units in H.
  - rewrite StringFacts.substring0_length, safeTitle_length. lia.
  - intros Hclean Hlen. rewrite (safeTitle_clean title Hclean).
    apply substring0_all. lia.
Qed.

End ChatGptFacts.

(* ================================================================== *)
(** * Further facts about the classifier and the order of the input *)

Module ClassifierExtras.

Import ExportArchive StringFacts TextFacts.

Lemma lowerChar_idempotent c : lowerChar (lowerChar c) = lowerChar c.
Proof. destruct c as [[] [] [] [] [] [] [] []]; reflexivity. Qed.

Lemma toLowerCase_idempotent s : toLowerCase (toLowerCase s) = toLowerCase s.
Proof.
  induction s as [|c s IH]; simpl; [reflexivity|].
  now rewrite lowerChar_idempotent, IH.
Qed.

Lemma toLowerCase_app s t :
  toLowerCase (s ++ t) = (toLowerCase s ++ toLowerCase t)%string.
Proof. induction s as [|c s IH]; simpl; [reflexivity | now rewrite IH]. Qed.

Lemma includes_inside before s after k :
  includes s k = true -> includes (before ++ s ++ after) k = true.
Proof.
  rewrite !includes_app. intros (a & b & ->).
  exists (before ++ a)%string, (b ++ after)%string.
  now rewrite !append_assoc.
Qed.

Lemma ruleMatches_inside before s after keywords :
  ruleMatches s keywords = true ->
  ruleMatches (before ++ s ++ after) keywords = true.
Proof.
  rewrite !ClassifierFacts.ruleMatches_exists. intros (k & Hk & Hinc).
  exists k. split; [exact Hk | now apply includes_inside].
Qed.

Lemma firstMatch_earliest front tag keywords rest lowerContent :
  ruleMatches lowerContent keywords = true ->
  exists tag' keywords',
    In (tag', keywords') (front ++ [(tag, keywords)]) /\
    ruleMatches lowerContent keywords' = true /\
    firstMatch (front ++ (tag, keywords) :: rest) lowerContent = tag'.
Proof.
  intros Hm. induction front as [|[t ks] front IH]; simpl.
  - exists tag, keywords. rewrite Hm. repeat split; auto.
  - destruct (ruleMatches lowerContent ks) eqn:E.
    + exists t, ks. repeat split; auto.
    + destruct IH as (tag' & keywords' & Hin & Hm' & Hf).
      exists tag', keywords'. repeat split; auto.
Qed.

(** X23. A text that contains a text matched by some rule is labelled by
    that rule or by one written before it in the table, and so is never
    ["Uncategorized"]: putting text before or after a message can move its
    label only towards the top of the table. *)
Theorem classify_containing_text :
  forall (front rest : list (string * list string)) (tag : string)
         (keywords : list string) (before text after : string),
    TAG_RULES = front ++ (tag, keywords) :: rest ->
    ruleMatches (toLowerCase text) keywords = true ->
    (exists tag' keywords',
        In (tag', keywords') (front ++ [(tag, keywords)]) /\
        ruleMatches (toLowerCase (before ++ text ++ after)) keywords' = true /\
        classifyMessage (before ++ text ++ after) = tag') /\
    classifyMessage (before ++ text ++ after) <> "Uncategorized"%string.
Proof.
  intros front rest tag keywords before text after Htable Hm.
  assert (ruleMatches (toLowerCase (before ++ text ++ after)) keywords = true) as Hm'.
  { rewrite !toLowerCase_app. now apply ruleMatches_inside. }
  destruct (@firstMatch_earliest front tag keywords rest _ Hm')
    as (tag' & keywords' & Hin & Hk & Hf).
  unfold classifyMessage, classifyWith. rewrite Htable, Hf.
  split; [exists tag', keywords'; auto|].
  apply (ClassifierFacts.TAG_RULES_labels (tag := tag') (keywords := keywords')).
  rewrite Htable. apply in_app_or in Hin as [Hin | [Hin | []]].
  - apply in_or_app. now left.
  - apply in_or_app. right. left. exact Hin.
Qed.

Lemma classify_containing_text_witness :
  (exists tag' keywords',
      In (tag', keywords')
         ([("NetSuite/P21", ["netsuite"; "p21"; "erp"; "integration"])] ++
          [("Business", ["meeting"; "strategy"; "planning"; "budget"])])%list /\
      ruleMatches (toLowerCase ("ERP " ++ "Budget" ++ " review")%string) keywords' = true /\
      classifyMessage ("ERP " ++ "Budget" ++ " review")%string = tag') /\
  classifyMessage ("ERP " ++ "Budget" ++ " review")%string <> "Uncategorized"%string.
Proof.
  exact (@classify_containing_text
           [("NetSuite/P21", ["netsuite"; "p21"; "erp"; "integration"])]
           _ "Business" ["meeting"; "strategy"; "planning"; "budget"]
           "ERP " "Budget" " review" eq_refl eq_refl).
Defined.

(** X24. The label of a text does not depend on the letter case of the
    text: two texts that are equal once lower-cased get the same label, and
    a text and its lower-cased form get the same label. *)
Theorem classify_ignores_text_case :
  forall text text' : string,
    toLowerCase text = toLowerCase text' ->
    classifyMessage text = classifyMessage text' /\
    classifyMessage (toLowerCase text) = classifyMessage text.
Proof.
  intros text text' H. unfold classifyMessage, classifyWith.
  rewrite toLowerCase_idempotent, H. split; reflexivity.
Qed.

Lemma classify_ignores_text_case_witness :
  classifyMessage "GitHub Deploy" = classifyMessage "github DEPLOY" /\
  classifyMessage (toLowerCase "GitHub Deploy") = classifyMessage "GitHub Deploy".
Proof.
  exact (@classify_ignores_text_case "GitHub Deploy" "github DEPLOY" eq_refl).
Defined.

End ClassifierExtras.

Module OrderFacts.

Import ExportArchive Segments SortFacts.

Lemma strictly_sorted l :
  StronglySorted byTimestamp l -> NoDup (map timestamp l) ->
  StronglySorted (fun a b => (timestamp a < timestamp b)%Z) l.
Proof.
  induction 1 as [|a l Hs IH Hf]; intros Hnd; [constructor|].
  simpl in Hnd. inversion Hnd as [|? ? Hnotin Hnd']; subst.
  constructor; [now apply IH|].
  rewrite Forall_forall in *. intros b Hb.
  specialize (Hf b Hb). unfold byTimestamp in Hf.
  destruct (Z.eq_dec (timestamp a) (timestamp b)) as [E | E]; [|lia].
  exfalso. apply Hnotin. rewrite E. now apply in_map.
Qed.

(** Two strictly ascending arrangements of the same messages are equal. *)
Lemma strictly_sorted_unique l1 : forall l2,
  StronglySorted (fun a b => (timestamp a < timestamp b)%Z) l1 ->
  StronglySorted (fun a b => (timestamp a < timestamp b)%Z) l2 ->
  Permutation l1 l2 -> l1 = l2.
Proof.
  induction l1 as [|a l1 IH]; intros l2 H1 H2 Hp.
  - apply Permutation_nil in Hp. now subst.
  - destruct l2 as [|b l2];
      [apply Permutation_sym, Permutation_nil in Hp; discriminate|].
    inversion H1 as [|? ? Hs1 Hf1]; subst. inversion H2 as [|? ? Hs2 Hf2]; subst.
    rewrite Forall_forall in Hf1, Hf2.
    assert (a = b) as ->.
    { assert (In a (b :: l2)) as Ha by (apply (Permutation_in _ Hp); now left).
      assert (In b (a :: l1)) as Hb
        by (apply (Permutation_in _ (Permutation_sym Hp)); now left).
      destruct Ha as [<- | Ha]; [reflexivity|].
      destruct Hb as [<- | Hb]; [reflexivity|].
      specialize (Hf1 b Hb). specialize (Hf2 a Ha). lia. }
    f_equal. apply IH; try assumption. now apply Permutation_cons_inv in Hp.
Qed.

Lemma sort_of_permutation msgs msgs' :
  Permutation msgs msgs' -> NoDup (map timestamp msgs) ->
  sort msgs = sort msgs'.
Proof.
  intros Hp Hnd.
  assert (Permutation (sort msgs) (sort msgs')) as Hps.
  { eapply perm_trans; [apply Permutation_sym, sort_perm|].
    eapply perm_trans; [exact Hp | apply sort_perm]. }
  apply strictly_sorted_unique; [| |exact Hps].
  - apply strictly_sorted; [apply SegmenterExtras.sorted_strongly, sort_sorted|].
    apply (Permutation_NoDup (l := map timestamp msgs)); [|exact Hnd].
    apply Permutation_map, sort_perm.
  - apply strictly_sorted; [apply SegmenterExtras.sorted_strongly, sort_sorted|].
    apply (Permutation_NoDup (l := map timestamp msgs)); [|exact Hnd].
    apply Permutation_map. eapply perm_trans; [exact Hp | apply sort_perm].
Qed.

(** X25. When no two messages share a timestamp, the segmenter's result
    does not depend on the order in which the messages are handed over:
    any two arrangements of the same messages leave the same array behind
    and give the same conversations. *)
Theorem group_ignores_input_order :
  forall msgs msgs' : list Message,
    Permutation msgs msgs' ->
    NoDup (map timestamp msgs) ->
    groupIntoConversations msgs = groupIntoConversations msgs'.
Proof.
  intros msgs msgs' Hp Hnd. unfold groupIntoConversations, groupWith.
  now rewrite (sort_of_permutation Hp Hnd).
Qed.

Lemma group_ignores_input_order_witness :
  groupIntoConversations Samples.scenario =
  groupIntoConversations (rev Samples.scenario).
Proof.
  apply group_ignores_input_order.
  - apply Permutation_rev.
  - repeat constructor; simpl; intuition discriminate.
Defined.

End OrderFacts.

(* ------------------------------------------------------------------ *)
(** ** More of the definitions at work *)

Module MoreExamples.

Example clear_sample_channel :
  ExportPipeline.clearOldMessages PipelineSamples.pages 4000000
                                  PipelineSamples.deletable 4 =
    ([PipelineSamples.oldest], Some (Normal 1)).
Proof. reflexivity. Qed.

Example clear_keeps_pinned :
  ExportPipeline.clearOldMessages PipelineSamples.pages 6000000
                                  PipelineSamples.deletable 4 =
    ([PipelineSamples.oldest], Some (Normal 1)).
Proof. reflexivity. Qed.

Example export_sample_conversations :
  option_map (fun r => match r with
                       | Normal (_, convs) => map ExportArchive.messages convs
                       | Throw _ => []
                       end)
             (ExportPipeline.exportChannelToMarkdown
                PipelineSamples.pages 4000000 PipelineSamples.stamp
                "2026-01-05T09:00:00.000Z" "general" 3) =
    Some [ [ExportPipeline.toMessage PipelineSamples.middle];
           [ExportPipeline.toMessage PipelineSamples.newest] ].
Proof. reflexivity. Qed.

Example sync_sample_run :
  CalendarSync.syncCalendar CalendarSamples.parseMillis
    (Normal [CalendarSamples.standup]) (fun _ => Normal "created"%string)
    (fun _ _ => true) 1000000
    {| CalendarSync.syncedEvents := []; CalendarSync.delivered := [] |} =
  ({| CalendarSync.syncedEvents := ["ev1"; "reminder-ev1"]%string;
      CalendarSync.delivered :=
        [(CalendarSamples.standup, "created"%string);
         (CalendarSamples.standup, "reminder"%string)] |}, false).
Proof. reflexivity. Qed.

Example sync_sample_second_run :
  CalendarSync.syncCalendar CalendarSamples.parseMillis
    (Normal [CalendarSamples.standup]) (fun _ => Normal "updated"%string)
    (fun _ _ => true) 1900000
    {| CalendarSync.syncedEvents := ["ev1"; "reminder-ev1"]%string;
       CalendarSync.delivered := [] |} =
  ({| CalendarSync.syncedEvents := ["ev1"; "reminder-ev1"]%string;
      CalendarSync.delivered := [] |}, false).
Proof. reflexivity. Qed.

Example file_name_sample :
  ChatGptExport.fileName "c1" "a/b: c?" = "c1_a_b_ c_.md"%string.
Proof. reflexivity. Qed.

(** A body whose [changes] is a string: nothing is posted and the answer is
    500, with or without a signature check. *)
Example webhook_string_changes :
  WebhookHandler.notionWebhook WebhookSamples.zeroDigest WebhookSamples.render
    (Some "s3cret"%string) [] "2026-01-05T09:00:00.000Z" (fun _ => true)
    {| WebhookHandler.xNotionSignature := None;
       WebhookHandler.body :=
         {| WebhookHandler.page := WebhookHandler.page WebhookSamples.pageUpdate;
            WebhookHandler.user := WebhookHandler.user WebhookSamples.pageUpdate;
            WebhookHandler.type := "page.updated";
            WebhookHandler.changes :=
              Some (WebhookHandler.ChangesString "Title updated") |} |} =
  {| WebhookHandler.posted := [];
     WebhookHandler.response :=
       {| WebhookHandler.status := 500;
          WebhookHandler.json :=
            WebhookHandler.ErrorJson "Failed to process webhook" |} |}.
Proof. reflexivity. Qed.

(** Two valid dates more than 2^53 milliseconds apart: the difference is
    rounded to the next double before the hours are taken. *)
Example duration_of_rounded_difference :
  CalendarSync.calculateDuration CalendarSamples.parseMillis
    {| CalendarSync.dateTime := Some "-6399999999999999"%string;
       CalendarSync.date := None |}
    {| CalendarSync.dateTime := Some "8000000000000000"%string;
       CalendarSync.date := None |} = "4000000000h 0m"%string.
Proof. reflexivity. Qed.

End MoreExamples.
